(** * benchmark_db: the dataset generator and the benchmark harness

    A shallow embedding of [benchmark_db.py].  The script builds one synthetic
    dataset with the interpreter's global random generator and then drives four
    database client libraries through the same six timed operations.

    Python values are modelled as they are in the script: integers as [Z],
    strings as [string], floats as IEEE binary64 values ([spec_float] with
    precision 53 and maximal exponent 1024), records as dictionaries in
    insertion order.  Everything outside the script (the random module, the
    clock, the file system and the four client libraries) is an explicit
    environment: a class of operations whose answers the model does not fix. *)

From Stdlib Require Import ZArith String Ascii Lia Bool DecimalString DecimalZ SpecFloat.
From stdpp Require Import base option fin list list_numbers.

Local Open Scope string_scope.
Local Open Scope list_scope.
Local Open Scope Z_scope.

(** ** Binary64 floats *)

Definition prec : Z := 53.
Definition emax : Z := 1024.

Definition float : Type := spec_float.

(** [int] to [float] conversion, correctly rounded. *)
Definition float_of_Z (z : Z) : float := binary_normalize prec emax z 0 false.

Definition fsub : float -> float -> float := SFsub prec emax.
Definition fmul : float -> float -> float := SFmul prec emax.
Definition fdiv : float -> float -> float := SFdiv prec emax.
Definition fleb : float -> float -> bool := SFleb.
Definition is_double (x : float) : bool := valid_binary prec emax x.

(** The double nearest to the rational [n / d] (ties to even), which is what
    reading a decimal literal produces. *)
Definition nearest (n : Z) (d : positive) : float :=
  match n with
  | Z0 => S754_zero false
  | Zpos p => fdiv (S754_finite false p 0) (S754_finite false d 0)
  | Zneg p => fdiv (S754_finite true p 0) (S754_finite false d 0)
  end.

(** [n / d] rounded to the nearest integer, ties to the even one ([d > 0]). *)
Definition div_half_even (n d : Z) : Z :=
  let q := n / d in
  let r := n mod d in
  match 2 * r ?= d with
  | Lt => q
  | Gt => q + 1
  | Eq => if Z.even q then q else q + 1
  end.

(** The exact value [m * 2^e] scaled by [10^ndigits] and rounded half-even to
    an integer: the decimal digits that [round] and the [.2f] format keep. *)
Definition scaled (m : positive) (e : Z) (ndigits : N) : Z :=
  let p := 10 ^ Z.of_N ndigits in
  if 0 <=? e then p * Zpos m * 2 ^ e
  else div_half_even (p * Zpos m) (2 ^ (- e)).

(** The builtin [round(x, ndigits)] on a float, for [ndigits >= 0]: the exact
    binary value is rounded half-even to [ndigits] decimals, and the decimal
    obtained is read back as the nearest double.  Zeros, infinities and NaN
    round to themselves. *)
Definition round (x : float) (ndigits : N) : float :=
  match x with
  | S754_finite s m e =>
      let k := scaled m e ndigits in
      if k =? 0 then S754_zero s
      else nearest (if s then - k else k) (Z.to_pos (10 ^ Z.of_N ndigits))
  | _ => x
  end.

Definition str (z : Z) : string := NilZero.string_of_int (Z.to_int z).

Definition two_digits (z : Z) : string :=
  if z <? 10 then String.append "0" (str z) else str z.

(** The format specification [:.2f]. *)
Definition format_2f (x : float) : string :=
  match x with
  | S754_nan => "nan"
  | S754_infinity s => if s then "-inf" else "inf"
  | S754_zero s => if s then "-0.00" else "0.00"
  | S754_finite s m e =>
      let k := scaled m e 2 in
      let sign : string := if s then "-" else EmptyString in
      String.append sign
        (String.append (str (k / 100)) (String.append "." (two_digits (k mod 100))))
  end.

(** ** Python values and dictionaries *)

#[warnings="-register-all"]
Inductive pyval :=
| VInt (z : Z)
| VStr (s : string)
| VFloat (x : float)
| VDict (d : list (string * pyval)).

Definition dict : Type := list (string * pyval).

Fixpoint dict_get (d : dict) (key : string) : option pyval :=
  match d with
  | [] => None
  | (k, v) :: d' => if String.eqb k key then Some v else dict_get d' key
  end.

(** [d[key] = v] on a mapping that keeps insertion order: an existing key
    keeps its place, a new key goes last. *)
Fixpoint dict_set {V : Type} (d : list (string * V)) (key : string) (v : V)
  : list (string * V) :=
  match d with
  | [] => [(key, v)]
  | (k, v0) :: d' =>
      if String.eqb k key then (k, v) :: d' else (k, v0) :: dict_set d' key v
  end.

(** [d.copy()]: a new dictionary object with the same items. *)
Definition dict_copy (d : dict) : dict := d.

(** ** The random module

    The script uses the module-level generator of [random]: one hidden state,
    replaced by [seed] and advanced by every draw.  The algorithm behind it is
    not part of the script, so it is an interface here. *)

Class Random := {
  rng : Type;
  (** [random.seed(a)]: the state that seeding with [a] installs. *)
  seed_state : Z -> rng;
  (** [random.randint(a, b)] *)
  next_randint : Z -> Z -> rng -> Z * rng;
  (** [random.uniform(a, b)] *)
  next_uniform : Z -> Z -> rng -> float * rng;
  (** [random.choice(seq)] picks [seq[j]] for an index [j] that it draws
      below [len(seq)]; [next_choice n] draws the index for a sequence of
      [n + 1] items. *)
  next_choice : forall n : nat, rng -> fin (S n) * rng
}.

Inductive draw :=
| DSeed (a : Z)
| DRandint (a b : Z)
| DUniform (a b : Z)
| DChoice (len : nat).

(** ** The outside world *)

Inductive backend := SQLite | MySQL | MongoDB | TinyDB.

Global Instance backend_eq_dec : EqDecision backend.
Proof. solve_decision. Defined.

(** One call into the operating system or a client library. *)
Inductive call :=
| Tick                                        (* time passing before a clock read *)
| PathExists (path : string)                   (* os.path.exists *)
| Remove (path : string)                       (* os.remove *)
| Connect (b : backend) (args : list pyval)    (* sqlite3.connect, mysql.connector.connect, MongoClient, TinyDB *)
| Method (b : backend) (name : string) (args : list pyval)
| Close (b : backend).                         (* conn.close() *)

(** An exception object: whether its class derives from [Exception], which
    is what [except Exception] looks at ([KeyboardInterrupt], [SystemExit] and
    [GeneratorExit] derive from [BaseException] only), and its text [str(e)]. *)
Record exn := Exn {
  is_exception : bool;
  exn_str : string
}.

(** An instance of [Exception] or of one of its subclasses. *)
Definition Exception (msg : string) : exn := Exn true msg.


(** What the environment answers to a call: whether it raises, how long it
    takes on the monotonic clock (in nanoseconds), and the boolean it returns
    where the script looks at one. *)
Record reply := Reply {
  raised : option exn;
  elapsed : N;
  answer : bool
}.

Inductive event :=
| EvDraw (d : draw)
| EvClock (ns : Z)
| EvCall (c : call) (err : option exn)
| EvPrint (line : string).

(** The state the script runs in.  [w_trace] is the history, newest event
    first.  [users_data] and [orders_data] are the two list objects that the
    entry point binds and hands to every backend by reference. *)
Record world `{Random} := World {
  w_rng : rng;
  w_clock : Z;
  w_trace : list event;
  w_open : list backend;
  users_data : list dict;
  orders_data : list dict
}.

Class Drivers `{Random} := {
  (** the answer of the environment to a call made in a given state *)
  driver : call -> world -> reply;
  (** what a call leaves in a dictionary object it was handed by reference *)
  mutate : call -> dict -> dict
}.

(** ** Computations: state and exceptions *)

Inductive outcome (A : Type) :=
| Ok (a : A)
| Raise (e : exn).
Global Arguments Ok {A} a.
Global Arguments Raise {A} e.

(** The value of an outcome, [d] when it is an exception. *)
Definition returned {A} (d : A) (o : outcome A) : A :=
  match o with
  | Ok a => a
  | Raise _ => d
  end.

Definition M `{Random} (A : Type) : Type := world -> outcome A * world.

Global Instance M_ret `{Random} : MRet M := fun A a w => (Ok a, w).

Global Instance M_bind `{Random} : MBind M := fun A B k m w =>
  match m w with
  | (Ok a, w') => k a w'
  | (Raise msg, w') => (Raise msg, w')
  end.

Section Primitives.
Context `{D : Drivers}.

Definition raise {A} (e : exn) : M A := fun w => (Raise e, w).

  (** [try: body  except Exception as e: handler(e)]: an exception that is no
      instance of [Exception] is not caught. *)
Definition try_except {A} (body : M A) (handler : exn -> M A) : M A :=
    fun w =>
      match body w with
      | (Ok a, w') => (Ok a, w')
      | (Raise e, w') =>
          if is_exception e then handler e w' else (Raise e, w')
      end.

Definition record (ev : event) (w : world) : world :=
    World _ (w_rng w) (w_clock w) (ev :: w_trace w) (w_open w)
          (users_data w) (orders_data w).

Definition advance (d : N) (w : world) : world :=
    World _ (w_rng w) (w_clock w + Z.of_N d) (w_trace w) (w_open w)
          (users_data w) (orders_data w).

Definition set_rng (s : rng) (w : world) : world :=
    World _ s (w_clock w) (w_trace w) (w_open w) (users_data w) (orders_data w).

Definition set_open (l : list backend) (w : world) : world :=
    World _ (w_rng w) (w_clock w) (w_trace w) l (users_data w) (orders_data w).

Definition set_data (users orders : list dict) (w : world) : world :=
    World _ (w_rng w) (w_clock w) (w_trace w) (w_open w) users orders.

Fixpoint remove_first (b : backend) (l : list backend) : list backend :=
    match l with
    | [] => []
    | b' :: l' => if decide (b' = b) then l' else b' :: remove_first b l'
    end.

  (** The handles held after a call that returned. *)
Definition handles_after (c : call) (l : list backend) : list backend :=
    match c with
    | Connect b _ => b :: l
    | Close b => remove_first b l
    | _ => l
    end.

  (** A call whose arguments are passed by value. *)
Definition ext (c : call) : M bool := fun w =>
    let r := driver c w in
    let w1 := record (EvCall c (raised r)) (advance (elapsed r) w) in
    match raised r with
    | Some msg => (Raise msg, w1)
    | None => (Ok (answer r), set_open (handles_after c (w_open w1)) w1)
    end.

Definition print (line : string) : M unit := fun w =>
    (Ok tt, record (EvPrint line) w).

  (** [random.seed], [random.randint], [random.uniform], [random.choice] on
      the global generator. *)
Definition random_seed (a : Z) : M unit := fun w =>
    (Ok tt, record (EvDraw (DSeed a)) (set_rng (seed_state a) w)).

Definition random_randint (a b : Z) : M Z := fun w =>
    let '(v, s) := next_randint a b (w_rng w) in
    (Ok v, record (EvDraw (DRandint a b)) (set_rng s w)).

Definition random_uniform (a b : Z) : M float := fun w =>
    let '(x, s) := next_uniform a b (w_rng w) in
    (Ok x, record (EvDraw (DUniform a b)) (set_rng s w)).

Definition random_choice (seq : list string) : M string := fun w =>
    match seq with
    | [] => (Raise (Exception "IndexError"), w)
    | x :: rest =>
        let '(j, s) := next_choice (length rest) (w_rng w) in
        (Ok (nth (fin_to_nat j) seq x),
         record (EvDraw (DChoice (length seq))) (set_rng s w))
    end.

  (** [for x in l: body(x)] *)
Fixpoint for_ {B : Type} (l : list B) (body : B -> M unit) : M unit :=
    match l with
    | [] => mret tt
    | x :: l' => body x;; for_ l' body
    end.

  (** A loop that rebinds or extends a local variable [acc]. *)
Fixpoint for_acc {A B : Type} (l : list B) (body : B -> A -> M A) (acc : A) : M A :=
    match l with
    | [] => mret acc
    | x :: l' => acc' ← body x acc; for_acc l' body acc'
    end.

  (** Reading and binding the two module-level names. *)
Definition read {A} (f : world -> A) : M A := fun w => (Ok (f w), w).

Definition bind_data (users orders : list dict) : M unit := fun w =>
    (Ok tt, set_data users orders w).

  (** [range(a, b)] *)
Definition range (a b : Z) : list Z := seqZ a (b - a).
Global Arguments range : simpl never.
End Primitives.

(** ** Strings *)

Definition cat (parts : list string) : string :=
  foldr String.append EmptyString parts.

Definition newline : string := String (ascii_of_nat 10) EmptyString.

(** ** The dataset generator *)

Section Generator.
Context `{D : Drivers}.

Definition user_record (i : Z) : dict :=
    [ ("user_id", VInt i);
      ("name", VStr (cat ["User "; str i]));
      ("email", VStr (cat ["user"; str i; "@example.com"]));
      ("created_at", VStr "2023-01-01 10:00:00") ].

Definition order_record (i uid : Z) (amount : float) (status : string) : dict :=
    [ ("order_id", VInt i);
      ("user_id", VInt uid);
      ("amount", VFloat amount);
      ("status", VStr status);
      ("created_at", VStr "2023-01-02 11:00:00") ].

Definition statuses : list string :=
    ["PENDING"; "PAID"; "CANCELLED"].

  (** The body of the second loop: the three draws happen while the dictionary
      display is evaluated, in the order of its entries. *)
Definition new_order (i : Z) : M dict :=
    uid ← random_randint 1 5000;
    x ← random_uniform 1 500;
    status ← random_choice statuses;
    mret (order_record i uid (round x 2) status).

Definition get_dataset : M (list dict * list dict) :=
    random_seed 42;;
    users ← for_acc (range 1 5001)
              (fun i users => mret (users ++ [user_record i])) [];
    orders ← for_acc (range 1 20001)
              (fun i orders => o ← new_order i; mret (orders ++ [o])) [];
    mret (users, orders).
End Generator.

(** ** The timer *)

Record Benchmark := mkBenchmark {
  db_name : string;
  results : list (string * float)
}.

(** The parameters [users] and [orders] of the run functions are references
    to the two shared lists. *)
Inductive shared := Users | Orders.

Section Harness.
Context `{D : Drivers}.

  (** [time.perf_counter()]: the monotonic clock in nanoseconds, converted to
      seconds as a float (whole seconds are converted exactly). *)
Definition seconds (ns : Z) : float :=
    if ns mod 1000000000 =? 0 then float_of_Z (ns / 1000000000)
    else fdiv (float_of_Z ns) (float_of_Z 1000000000).

Definition perf_counter : M float := fun w =>
    let w1 := advance (elapsed (driver Tick w)) w in
    (Ok (seconds (w_clock w1)), record (EvClock (w_clock w1)) w1).

Definition duration_ms (start end_ : float) : float :=
    fmul (fsub end_ start) (float_of_Z 1000).

Definition measure (self : Benchmark) (operation_name : string) (func : M unit)
    : M Benchmark :=
    start ← perf_counter;
    func;;
    end_ ← perf_counter;
    let d := duration_ms start end_ in
    let self' := mkBenchmark (db_name self) (dict_set (results self) operation_name d) in
    print (cat ["["; db_name self; "] "; operation_name; ": ";
                format_2f d; " ms"]);;
    mret self'.

  (** *** Access to the shared lists *)

Definition items (l : shared) (w : world) : list dict :=
    match l with Users => users_data w | Orders => orders_data w end.

Definition set_items (l : shared) (v : list dict) (w : world) : world :=
    match l with
    | Users => set_data v (orders_data w) w
    | Orders => set_data (users_data w) v w
    end.

  (** [for u in l: body], [u] being the object at the current position. *)
Definition for_each (l : shared) (body : nat -> dict -> M unit) : M unit := fun w =>
    for_ (seq 0 (length (items l w)))
         (fun i w' =>
            match items l w' !! i with
            | Some u => body i u w'
            | None => (Ok tt, w')
            end) w.

  (** [u[key]] *)
Definition getitem (u : dict) (key : string) : M pyval :=
    match dict_get u key with
    | Some v => mret v
    | None => raise (Exception (cat ["KeyError: "; key]))
    end.

  (** A call that is handed the dictionary at position [i] of a shared list
      itself, not a copy: what the callee leaves in it stays in the list. *)
Definition ext_ref (c : dict -> call) (l : shared) (i : nat) : M bool := fun w =>
    match items l w !! i with
    | None => (Raise (Exception "IndexError"), w)
    | Some u =>
        let r := driver (c u) w in
        let w1 := record (EvCall (c u) (raised r)) (advance (elapsed r) w) in
        let w2 := set_items l (<[i := mutate (c u) u]> (items l w1)) w1 in
        match raised r with
        | Some msg => (Raise msg, w2)
        | None => (Ok (answer r), w2)
        end
    end.

Definition method (b : backend) (name : string) (args : list pyval) : M unit :=
    ext (Method b name args);; mret tt.

  (** [c.execute(sql, params)] *)
Definition execute (b : backend) (sql : string) (params : list pyval) : M unit :=
    method b "execute" (VStr sql :: params).

Definition user_params (u : dict) : M (list pyval) :=
    a ← getitem u "user_id"; b ← getitem u "name"; c ← getitem u "email";
    d ← getitem u "created_at";
    mret [a; b; c; d].

Definition order_params (o : dict) : M (list pyval) :=
    a ← getitem o "order_id"; b ← getitem o "user_id"; c ← getitem o "amount";
    d ← getitem o "status"; e ← getitem o "created_at";
    mret [a; b; c; d; e].

  (** *** 1. SQLite *)

Definition sqlite_insert_data (users orders : shared) : M unit :=
    for_each users (fun _ u =>
      p ← user_params u;
      execute SQLite "INSERT INTO users VALUES (?, ?, ?, ?)" p);;
    for_each orders (fun _ o =>
      p ← order_params o;
      execute SQLite "INSERT INTO orders VALUES (?, ?, ?, ?, ?)" p);;
    method SQLite "commit" [].

Definition sqlite_read_point : M unit :=
    for_ (range 0 1000) (fun _ =>
      execute SQLite "SELECT * FROM users WHERE user_id = 2500" [];;
      method SQLite "fetchone" []).

Definition sqlite_read_range : M unit :=
    execute SQLite "SELECT * FROM orders WHERE amount > 300 AND status = 'PAID'" [];;
    method SQLite "fetchall" [].

Definition sqlite_read_user_orders : M unit :=
    for_ (range 0 100) (fun _ =>
      execute SQLite "SELECT * FROM orders WHERE user_id = 1234" [];;
      method SQLite "fetchall" []).

Definition sqlite_update_op : M unit :=
    execute SQLite "UPDATE orders SET status = 'PAID' WHERE status = 'PENDING'" [];;
    method SQLite "commit" [].

Definition sqlite_delete_op : M unit :=
    execute SQLite "DELETE FROM orders WHERE status = 'CANCELLED'" [];;
    method SQLite "commit" [].

Definition run_sqlite (users orders : shared) : M (list (string * float)) :=
    let db_file : string := "benchmark.db" in
    there ← ext (PathExists db_file);
    (if (there : bool) then ext (Remove db_file);; mret tt else mret tt);;
    ext (Connect SQLite [VStr db_file]);;
    method SQLite "cursor" [];;
    let bench := mkBenchmark "SQLite" [] in
    execute SQLite "CREATE TABLE users (user_id INTEGER PRIMARY KEY, name TEXT, email TEXT, created_at TEXT)" [];;
    execute SQLite "CREATE TABLE orders (order_id INTEGER PRIMARY KEY, user_id INTEGER, amount REAL, status TEXT, created_at TEXT, FOREIGN KEY(user_id) REFERENCES users(user_id))" [];;
    method SQLite "commit" [];;
    bench ← measure bench "Create" (sqlite_insert_data users orders);
    bench ← measure bench "Read-1 Point" sqlite_read_point;
    bench ← measure bench "Read-2 Range" sqlite_read_range;
    bench ← measure bench "Read-3 UserOrders" sqlite_read_user_orders;
    bench ← measure bench "Update" sqlite_update_op;
    bench ← measure bench "Delete" sqlite_delete_op;
    ext (Close SQLite);;
    mret (results bench).

  (** *** 2. MySQL *)

Definition MYSQL_CONFIG : dict :=
    [ ("user", VStr "bench");
      ("password", VStr "password");
      ("host", VStr "localhost");
      ("database", VStr "shopping_db") ].

Definition mysql_insert_data (users orders : shared) : M unit :=
    for_each users (fun _ u =>
      p ← user_params u;
      execute MySQL "INSERT INTO users (user_id, name, email, created_at) VALUES (%s, %s, %s, %s)" p);;
    for_each orders (fun _ o =>
      p ← order_params o;
      execute MySQL "INSERT INTO orders (order_id, user_id, amount, status, created_at) VALUES (%s, %s, %s, %s, %s)" p);;
    method MySQL "commit" [].

Definition mysql_read_point : M unit :=
    for_ (range 0 1000) (fun _ =>
      execute MySQL "SELECT * FROM users WHERE user_id = 2500" [];;
      method MySQL "fetchall" []).

Definition mysql_read_range : M unit :=
    execute MySQL "SELECT * FROM orders WHERE amount > 300 AND status = 'PAID'" [];;
    method MySQL "fetchall" [].

Definition mysql_read_user_orders : M unit :=
    for_ (range 0 100) (fun _ =>
      execute MySQL "SELECT * FROM orders WHERE user_id = 1234" [];;
      method MySQL "fetchall" []).

Definition mysql_update_op : M unit :=
    execute MySQL "UPDATE orders SET status = 'PAID' WHERE status = 'PENDING'" [];;
    method MySQL "commit" [].

Definition mysql_delete_op : M unit :=
    execute MySQL "DELETE FROM orders WHERE status = 'CANCELLED'" [];;
    method MySQL "commit" [].

  (** The statements under [try:]. *)
Definition mysql_connect : M unit :=
    ext (Connect MySQL [VDict MYSQL_CONFIG]);; mret tt.

Definition run_mysql (users orders : shared) : M (list (string * float)) :=
    connected ← try_except (mysql_connect;; mret true)
                  (fun e => print (cat ["Skipping MySQL: "; exn_str e]);; mret false);
    if negb (connected : bool) then mret [] else
    method MySQL "cursor" [];;
    let bench := mkBenchmark "MySQL" [] in
    execute MySQL "DROP TABLE IF EXISTS orders" [];;
    execute MySQL "DROP TABLE IF EXISTS users" [];;
    execute MySQL "CREATE TABLE users (user_id INT PRIMARY KEY, name VARCHAR(255), email VARCHAR(255), created_at DATETIME)" [];;
    execute MySQL "CREATE TABLE orders (order_id INT PRIMARY KEY, user_id INT, amount DECIMAL(10,2), status VARCHAR(50), created_at DATETIME, FOREIGN KEY (user_id) REFERENCES users(user_id))" [];;
    method MySQL "commit" [];;
    bench ← measure bench "Create" (mysql_insert_data users orders);
    bench ← measure bench "Read-1 Point" mysql_read_point;
    bench ← measure bench "Read-2 Range" mysql_read_range;
    bench ← measure bench "Read-3 UserOrders" mysql_read_user_orders;
    bench ← measure bench "Update" mysql_update_op;
    bench ← measure bench "Delete" mysql_delete_op;
    ext (Close MySQL);;
    mret (results bench).

  (** *** 3. MongoDB *)

Definition mongodb_insert_data (users orders : shared) : M unit :=
    for_each users (fun _ u =>
      method MongoDB "users.insert_one" [VDict (dict_copy u)]);;
    for_each orders (fun _ o =>
      method MongoDB "orders.insert_one" [VDict (dict_copy o)]).

Definition mongodb_read_point : M unit :=
    for_ (range 0 1000) (fun _ =>
      method MongoDB "users.find_one" [VDict [("user_id", VInt 2500)]]).

Definition mongodb_read_range : M unit :=
    method MongoDB "orders.find"
      [VDict [("amount", VDict [("$gt", VInt 300)]);
              ("status", VStr "PAID")]];;
    method MongoDB "list" [].

Definition mongodb_read_user_orders : M unit :=
    for_ (range 0 100) (fun _ =>
      method MongoDB "orders.find" [VDict [("user_id", VInt 1234)]];;
      method MongoDB "list" []).

Definition mongodb_update_op : M unit :=
    method MongoDB "orders.update_many"
      [VDict [("status", VStr "PENDING")];
       VDict [("$set", VDict [("status", VStr "PAID")])]].

Definition mongodb_delete_op : M unit :=
    method MongoDB "orders.delete_many" [VDict [("status", VStr "CANCELLED")]].

  (** The statements under [try:]. *)
Definition mongodb_connect : M unit :=
    ext (Connect MongoDB [VStr "mongodb://localhost:27017/"]);;
    method MongoDB "__getitem__" [VStr "shopping_db"].

Definition run_mongodb (users orders : shared) : M (list (string * float)) :=
    connected ← try_except (mongodb_connect;; mret true)
                  (fun e => print (cat ["Skipping MongoDB: "; exn_str e]);; mret false);
    if negb (connected : bool) then mret [] else
    let bench := mkBenchmark "MongoDB" [] in
    method MongoDB "users.drop" [];;
    method MongoDB "orders.drop" [];;
    bench ← measure bench "Create" (mongodb_insert_data users orders);
    bench ← measure bench "Read-1 Point" mongodb_read_point;
    bench ← measure bench "Read-2 Range" mongodb_read_range;
    bench ← measure bench "Read-3 UserOrders" mongodb_read_user_orders;
    bench ← measure bench "Update" mongodb_update_op;
    bench ← measure bench "Delete" mongodb_delete_op;
    mret (results bench).

  (** *** 4. TinyDB *)

Definition tinydb_insert_data (users orders : shared) : M unit :=
    for_each users (fun i _ =>
      ext_ref (fun u => Method TinyDB "users.insert" [VDict u]) users i;; mret tt);;
    for_each orders (fun i _ =>
      ext_ref (fun o => Method TinyDB "orders.insert" [VDict o]) orders i;; mret tt).

Definition tinydb_read_point : M unit :=
    for_ (range 0 1000) (fun _ =>
      method TinyDB "users.get" [VStr "User.user_id == 2500"]).

Definition tinydb_read_range : M unit :=
    method TinyDB "orders.search"
      [VStr "(Order.amount > 300) & (Order.status == 'PAID')"].

Definition tinydb_read_user_orders : M unit :=
    for_ (range 0 100) (fun _ =>
      method TinyDB "orders.search" [VStr "Order.user_id == 1234"]).

Definition tinydb_update_op : M unit :=
    method TinyDB "orders.update"
      [VDict [("status", VStr "PAID")]; VStr "Order.status == 'PENDING'"].

Definition tinydb_delete_op : M unit :=
    method TinyDB "orders.remove" [VStr "Order.status == 'CANCELLED'"].

Definition run_tinydb (users orders : shared) : M (list (string * float)) :=
    let db_file : string := "tiny_benchmark.json" in
    there ← ext (PathExists db_file);
    (if (there : bool) then ext (Remove db_file);; mret tt else mret tt);;
    ext (Connect TinyDB [VStr db_file]);;
    method TinyDB "table" [VStr "users"];;
    method TinyDB "table" [VStr "orders"];;
    let bench := mkBenchmark "TinyDB" [] in
    bench ← measure bench "Create" (tinydb_insert_data users orders);
    method TinyDB "Query" [];;
    method TinyDB "Query" [];;
    bench ← measure bench "Read-1 Point" tinydb_read_point;
    bench ← measure bench "Read-2 Range" tinydb_read_range;
    bench ← measure bench "Read-3 UserOrders" tinydb_read_user_orders;
    bench ← measure bench "Update" tinydb_update_op;
    bench ← measure bench "Delete" tinydb_delete_op;
    mret (results bench).

  (** *** Main execution *)

Definition run (b : backend) : M (list (string * float)) :=
    match b with
    | MySQL => run_mysql Users Orders
    | SQLite => run_sqlite Users Orders
    | MongoDB => run_mongodb Users Orders
    | TinyDB => run_tinydb Users Orders
    end.

  (** The backends in the order in which the entry point runs them. *)
Definition sequence : list backend := [MySQL; SQLite; MongoDB; TinyDB].

  (** [users_data, orders_data = get_dataset()] *)
Definition generate : M unit :=
    '(users, orders) ← get_dataset;
    bind_data users orders.

Definition main : M unit :=
    print "Generating Dataset...";;
    generate;;
    n ← read (fun w => length (users_data w));
    m ← read (fun w => length (orders_data w));
    print (cat ["Generated "; str (Z.of_nat n); " users and "; str (Z.of_nat m);
                " orders."]);;
    print "------------------------------";;
    print (cat [newline; "Starting MySQL Benchmark..."]);;
    run_mysql Users Orders;;
    print (cat [newline; "Starting SQLite Benchmark..."]);;
    run_sqlite Users Orders;;
    print (cat [newline; "Starting MongoDB Benchmark..."]);;
    run_mongodb Users Orders;;
    print (cat [newline; "Starting TinyDB Benchmark (This may take a while)..."]);;
    run_tinydb Users Orders;;
    print (cat [newline; "Done."]).
End Harness.

(** ** The draw order in the words of the specification

    One stream; for each order in turn the [user_id], then the [amount], then
    the [status].  These follow the specification, not the script, and are
    compared with [get_dataset] below. *)

Section DrawOrder.
Context `{R : Random}.

Definition draw_order (i : Z) (s : rng) : dict * rng :=
    let '(uid, s1) := next_randint 1 5000 s in
    let '(x, s2) := next_uniform 1 500 s1 in
    let '(j, s3) := next_choice 2 s2 in
    (order_record i uid (round x 2) (nth (fin_to_nat j) statuses "PENDING"), s3).

Fixpoint draw_orders (ids : list Z) (s : rng) : list dict * rng :=
    match ids with
    | [] => ([], s)
    | i :: ids' =>
        let '(o, s1) := draw_order i s in
        let '(os, s2) := draw_orders ids' s1 in
        (o :: os, s2)
    end.

Definition order_draws : list draw := [DRandint 1 5000; DUniform 1 500; DChoice 3].

  (** The draws recorded in a history, oldest first. *)
Definition draws_of (t : list event) : list draw :=
    rev (omap (fun ev => match ev with EvDraw d => Some d | _ => None end) t).

Definition draw_log (w : world) : list draw := draws_of (w_trace w).

  (** The clock readings recorded in a history, oldest first. *)
Definition readings_of (t : list event) : list Z :=
    rev (omap (fun ev => match ev with EvClock ns => Some ns | _ => None end) t).

Definition readings (w : world) : list Z := readings_of (w_trace w).
End DrawOrder.

(** The state after the draws [ds] (oldest first) have been made and left the
    generator in state [s]. *)
Definition logged `{Random} (ds : list draw) (s : rng) (w : world) : world :=
  World _ s (w_clock w) (map EvDraw (rev ds) ++ w_trace w) (w_open w)
        (users_data w) (orders_data w).

(** The draws of one run of the generator, and the state it leaves. *)
Definition generator_draws : list draw :=
  DSeed 42 :: mjoin (replicate (Z.to_nat 20000) order_draws).

Definition generated_orders `{Random} : list dict * rng :=
  draw_orders (range 1 20001) (seed_state 42).


(** ** A concrete generator

    A linear congruential generator behind the [Random] interface, to run the
    model on. *)

Definition lcg_next (s : Z) : Z := (1103515245 * s + 12345) mod 2147483648.

(** The index [min k n] among [n + 1] positions. *)
Fixpoint clamp (k n : nat) : fin (S n) :=
  match n return fin (S n) with
  | O => Fin.F1
  | S n' => match k with
            | O => Fin.F1
            | S k' => Fin.FS (clamp k' n')
            end
  end.

Definition lcg : Random := {|
  rng := Z;
  seed_state a := a mod 2147483648;
  next_randint a b s := (a + s mod (b - a + 1), lcg_next s);
  next_uniform a b s := (nearest (100 * a + s mod (100 * (b - a) + 1)) 100, lcg_next s);
  next_choice n s := (clamp (Z.to_nat (s mod Z.of_nat (S n))) n, lcg_next s)
|}.

(** The state in which the interpreter starts. *)
Definition boot `{Random} : world := World _ (seed_state 0) 0 [] [] [] [].


(** ** Amounts as hundredths

    [cents_ok k] checks, for the double [y] nearest to [k / 100], that [y] is a
    binary64 value between 1.0 and 500.0 and that rounding it to two decimals
    gives [y] back. *)

Definition float_same (x y : float) : bool :=
  match x, y with
  | S754_zero s, S754_zero s' => Bool.eqb s s'
  | S754_infinity s, S754_infinity s' => Bool.eqb s s'
  | S754_nan, S754_nan => true
  | S754_finite s m e, S754_finite s' m' e' => Bool.eqb s s' && Pos.eqb m m' && Z.eqb e e'
  | _, _ => false
  end.

Definition one : float := Eval vm_compute in float_of_Z 1.
Definition five_hundred : float := Eval vm_compute in float_of_Z 500.

Definition cents_ok (k : Z) : bool :=
  let y := nearest k 100 in
  is_double y && fleb one y && fleb y five_hundred && float_same (round y 2) y.

(** [ok] holds of the [n] integers from [k] on. *)
Fixpoint all_from (ok : Z -> bool) (n : nat) (k : Z) : bool :=
  match n with
  | O => true
  | S n' => ok k && all_from ok n' (k + 1)
  end.


(** ** Relations between the state before and after a computation *)

Section Relations.
Context `{D : Drivers}.

(** [m] takes every state to one related to it by [R], whatever its outcome. *)
Definition keeps (R : relation world) {A} (m : M A) : Prop :=
  forall w, R w (snd (m w)).

(** No clock reading is added and the clock does not go back. *)
Definition untimed (w w' : world) : Prop :=
  readings w' = readings w /\ w_clock w <= w_clock w'.

Definition same_open (w w' : world) : Prop := w_open w' = w_open w.

Definition same_data (w w' : world) : Prop :=
  users_data w' = users_data w /\ orders_data w' = orders_data w.

(** [rs] is non-decreasing and lies between [lo] and [hi]. *)
Fixpoint rising (lo : Z) (rs : list Z) (hi : Z) : Prop :=
  match rs with
  | [] => lo <= hi
  | t :: rs' => lo <= t /\ rising t rs' hi
  end.

(** The clock readings added form a non-decreasing list between the clock
    before and the clock after. *)
Definition later (w w' : world) : Prop :=
  exists rs, readings w' = readings w ++ rs /\ rising (w_clock w) rs (w_clock w').

(** The names under which the six operations are measured. *)
Definition operations : list string :=
  ["Create"; "Read-1 Point"; "Read-2 Range"; "Read-3 UserOrders"; "Update"; "Delete"].

(** The result mapping for six timed windows given by their clock readings. *)
Definition timings (ws : list (Z * Z)) : list (string * float) :=
  zip_with (fun name se => (name, duration_ms (seconds se.1) (seconds se.2)))
           operations ws.
End Relations.


Section Windows.
Context `{D : Drivers}.

(** The clock readings of a list of timed windows [(start, end)]. *)
Fixpoint flat (ws : list (Z * Z)) : list Z :=
  match ws with
  | [] => []
  | (s, e) :: ws' => s :: e :: flat ws'
  end.

(** From [w] to [w'] exactly the windows [ws] were timed, one after the
    other, and the held handles changed by [f]. *)
Definition step (ws : list (Z * Z)) (f : list backend -> list backend)
    (w w' : world) : Prop :=
  readings w' = readings w ++ flat ws
  /\ rising (w_clock w) (flat ws) (w_clock w')
  /\ w_open w' = f (w_open w).
End Windows.


(** A run that timed the six operations, one window each, in order. *)
Definition measured `{Drivers} (f : list backend -> list backend)
    (w : world) (res : list (string * float)) (w' : world) : Prop :=
  exists ws, length ws = 6%nat /\ step ws f w w' /\ res = timings ws.


(** ** Failures and progress *)

Section Progress.
Context `{D : Drivers}.

(** The calls made under a [try:] of the script. *)
Definition guarded (c : call) : bool :=
  match c with
  | Connect MySQL _ => true
  | Connect MongoDB _ => true
  | Method MongoDB name _ => String.eqb name "__getitem__"
  | _ => false
  end.

(** An environment in which no other call raises, and in which what these
    calls raise are instances of [Exception]. *)
Definition only_guarded : Prop :=
  forall c w e, raised (driver c w) = Some e ->
    guarded c = true /\ is_exception e = true.

(** [m] raises instances of [Exception] only. *)
Definition ordinary {A} (m : M A) : Prop :=
  forall w e w', m w = (Raise e, w') -> is_exception e = true.

(** The first statements of a run function that reach the database. *)
Definition connect_step (b : backend) : M unit :=
  match b with
  | SQLite => ext (Connect SQLite [VStr "benchmark.db"]);; mret tt
  | MySQL => mysql_connect
  | MongoDB => mongodb_connect
  | TinyDB => ext (Connect TinyDB [VStr "tiny_benchmark.json"]);; mret tt
  end.

Definition label (b : backend) : string :=
  match b with
  | SQLite => "SQLite"
  | MySQL => "MySQL"
  | MongoDB => "MongoDB"
  | TinyDB => "TinyDB"
  end.

(** From a state in [P], [m] returns and leaves a state in [Q]. *)
Definition returns (P : world -> Prop) {A} (m : M A) (Q : world -> Prop) : Prop :=
  forall w, P w -> exists a w', m w = (Ok a, w') /\ Q w'.

(** The shared lists hold what the generator returned. *)
Definition generated_data (w : world) : Prop :=
  users_data w = map user_record (range 1 5001)
  /\ orders_data w = fst generated_orders.

Definition anything (w : world) : Prop := True.

(** [P] only looks at the shared lists. *)
Definition on_data (P : world -> Prop) : Prop :=
  forall w w', same_data w w' -> P w -> P w'.

(** The backend runs of the entry point, without the announcements. *)
Definition runs (bs : list backend) : M unit :=
  for_ bs (fun b => run b;; mret tt).
End Progress.


(** ** Concrete environments

    Environments over the generator [lcg] in which every call takes one
    nanosecond and no file exists; they differ in the call that raises. *)

Definition fine : reply := Reply None 1 false.

Definition failing (msg : string) : reply := Reply (Some (Exception msg)) 1 false.

(** Nothing raises, nothing writes to the records it is handed. *)
Definition steady : @Drivers lcg := {|
  driver := fun _ _ => fine;
  mutate := fun _ d => d
|}.




(** SQLite rejects every statement it is asked to execute. *)
Definition sqlite_readonly : @Drivers lcg := {|
  driver := fun c _ =>
    match c with
    | Method SQLite name _ =>
        if String.eqb name "execute"
        then failing "attempt to write a readonly database"
        else fine
    | _ => fine
    end;
  mutate := fun _ d => d
|}.




(** The file of an earlier run is still there. *)
Definition stale : @Drivers lcg := {|
  driver := fun c _ =>
    match c with
    | PathExists _ => Reply None 1 true
    | _ => fine
    end;
  mutate := fun _ d => d
|}.

(** Nothing raises, and the client library writes an identifier into every
    record it is handed. *)
Definition marking : @Drivers lcg := {|
  driver := fun _ _ => fine;
  mutate := fun _ d => dict_set d "_id" (VInt 1)
|}.

(** A state with one user and one order in the shared lists. *)
Definition small : @world lcg :=
  @set_data lcg [user_record 1] [order_record 1 1 (float_of_Z 5) "PAID"] (@boot lcg).


(** ** The summary printer *)

Section Summary.
Context `{D : Drivers}.

Definition print_summary (self : Benchmark) : M unit :=
  print (cat [newline; "--- "; db_name self; " Results ---"]);;
  for_ (results self)
       (fun kv => print (cat [kv.1; ": "; format_2f kv.2; " ms"])).
End Summary.

(** ** What a history shows *)

Section History.
Context `{D : Drivers}.

(** The calls recorded in a history, oldest first. *)
Definition calls_of (t : list event) : list call :=
  rev (omap (fun ev => match ev with EvCall c _ => Some c | _ => None end) t).

Definition calls (w : world) : list call := calls_of (w_trace w).

(** The lines printed, oldest first. *)
Definition lines_of (t : list event) : list string :=
  rev (omap (fun ev => match ev with EvPrint line => Some line | _ => None end) t).

Definition printed (w : world) : list string := lines_of (w_trace w).

(** The calls added all satisfy [P]. *)
Definition only (P : call -> Prop) (w w' : world) : Prop :=
  exists cs, calls w' = calls w ++ cs /\ Forall P cs.

(** [R1], then [R2]. *)
Definition and_then (R1 R2 : relation world) : relation world :=
  fun w w'' => exists w', R1 w w' /\ R2 w' w''.

(** The file that a backend keeps in the working directory. *)
Definition own_file (b : backend) : option string :=
  match b with
  | SQLite => Some "benchmark.db"
  | TinyDB => Some "tiny_benchmark.json"
  | MySQL | MongoDB => None
  end.

(** The calls that the run function of backend [b] contains: the clock, its
    own file, its own client library, and [close] where the script has it. *)
Definition belongs (b : backend) (c : call) : bool :=
  match c with
  | Tick => true
  | PathExists p | Remove p =>
      match own_file b with
      | Some f => String.eqb p f
      | None => false
      end
  | Connect b' _ | Method b' _ _ => bool_decide (b' = b)
  | Close b' =>
      bool_decide (b' = b)
      && match b with SQLite | MySQL => true | MongoDB | TinyDB => false end
  end.

(** Nothing is printed between [w] and [w']. *)
Definition silent (w w' : world) : Prop := printed w' = printed w.

(** Lines are only added between [w] and [w']. *)
Definition grows (w w' : world) : Prop := exists ls, printed w' = printed w ++ ls.

(** [m] only adds lines, and when it returns the last of them is [line]. *)
Definition closes (line : string) (m : M unit) : Prop :=
  forall w, exists ls,
    printed (snd (m w)) = printed w ++ ls
    /\ (fst (m w) = Ok tt -> exists ls', ls = ls' ++ [line]).

(** The line that [measure] prints for a duration. *)
Definition measure_line (db : string) (kv : string * float) : string :=
  cat ["["; db; "] "; kv.1; ": "; format_2f kv.2; " ms"].

Definition is_remove (c : call) : bool :=
  match c with Remove _ => true | _ => false end.

(** [d[key]] on a mapping of any value type. *)
Fixpoint entry {V : Type} (d : list (string * V)) (key : string) : option V :=
  match d with
  | [] => None
  | (k, v) :: d' => if String.eqb k key then Some v else entry d' key
  end.

(** The values that a finite float can take here: zeros and finite numbers. *)
Definition is_finite (x : float) : bool :=
  match x with
  | S754_zero _ | S754_finite _ _ _ => true
  | _ => false
  end.
End History.


(** ** The [Create] step of each backend *)

Section Create.
Context `{D : Drivers}.

(** The function that a backend's run measures under "Create". *)
Definition insert_data (b : backend) : M unit :=
  match b with
  | SQLite => sqlite_insert_data Users Orders
  | MySQL => mysql_insert_data Users Orders
  | MongoDB => mongodb_insert_data Users Orders
  | TinyDB => tinydb_insert_data Users Orders
  end.

(** The two [INSERT] statements of the SQL backends. *)
Definition insert_users (b : backend) : string :=
  match b with
  | SQLite => "INSERT INTO users VALUES (?, ?, ?, ?)"
  | _ => "INSERT INTO users (user_id, name, email, created_at) VALUES (%s, %s, %s, %s)"
  end.

Definition insert_orders (b : backend) : string :=
  match b with
  | SQLite => "INSERT INTO orders VALUES (?, ?, ?, ?, ?)"
  | _ => "INSERT INTO orders (order_id, user_id, amount, status, created_at) VALUES (%s, %s, %s, %s, %s)"
  end.

Definition user_columns : list string := ["user_id"; "name"; "email"; "created_at"].

Definition order_columns : list string :=
  ["order_id"; "user_id"; "amount"; "status"; "created_at"].

(** No method of the client library of [b] raises. *)
Definition obliging (b : backend) : Prop :=
  forall name args w, raised (driver (Method b name args) w) = None.
End Create.


(** ** Windows, failures and handles in a history *)

Section Failures.
Context `{D : Drivers}.

(** [w'] continues the history of [w]. *)
Definition extends (w w' : world) : Prop :=
  exists t, w_trace w' = t ++ w_trace w.

(** The six functions that the run function of a backend hands to
    [bench.measure], under the names it gives them, in the order of the
    script. *)
Definition ops (b : backend) : list (string * M unit) :=
  match b with
  | SQLite =>
      [ ("Create", sqlite_insert_data Users Orders);
        ("Read-1 Point", sqlite_read_point);
        ("Read-2 Range", sqlite_read_range);
        ("Read-3 UserOrders", sqlite_read_user_orders);
        ("Update", sqlite_update_op);
        ("Delete", sqlite_delete_op) ]
  | MySQL =>
      [ ("Create", mysql_insert_data Users Orders);
        ("Read-1 Point", mysql_read_point);
        ("Read-2 Range", mysql_read_range);
        ("Read-3 UserOrders", mysql_read_user_orders);
        ("Update", mysql_update_op);
        ("Delete", mysql_delete_op) ]
  | MongoDB =>
      [ ("Create", mongodb_insert_data Users Orders);
        ("Read-1 Point", mongodb_read_point);
        ("Read-2 Range", mongodb_read_range);
        ("Read-3 UserOrders", mongodb_read_user_orders);
        ("Update", mongodb_update_op);
        ("Delete", mongodb_delete_op) ]
  | TinyDB =>
      [ ("Create", tinydb_insert_data Users Orders);
        ("Read-1 Point", tinydb_read_point);
        ("Read-2 Range", tinydb_read_range);
        ("Read-3 UserOrders", tinydb_read_user_orders);
        ("Update", tinydb_update_op);
        ("Delete", tinydb_delete_op) ]
  end.

(** The window [(s, e)] encloses one execution of [func] and nothing else:
    from [wa] the clock is read and gives [s], [func] runs from the state that
    this leaves and returns without a clock reading, the clock is read again
    in the state that [func] left and gives [e]; all this is part of the
    history of [wb]. *)
Definition window (func : M unit) (s e : Z) (wa wb : world) : Prop :=
  exists w1 w2 w3,
    perf_counter wa = (Ok (seconds s), w1)
    /\ readings w1 = readings wa ++ [s]
    /\ func w1 = (Ok tt, w2)
    /\ readings w2 = readings w1
    /\ perf_counter w2 = (Ok (seconds e), w3)
    /\ readings w3 = readings w2 ++ [e]
    /\ extends w3 wb.

(** A run that timed the six operations of [b]: one window each, in order,
    each around the function measured under that name. *)
Definition timed (b : backend) (f : list backend -> list backend)
    (w : world) (res : list (string * float)) (w' : world) : Prop :=
  exists ws,
    length ws = 6%nat
    /\ step ws f w w'
    /\ res = timings ws
    /\ forall i name func s e,
         ops b !! i = Some (name, func) -> ws !! i = Some (s, e) ->
         exists wa, extends w wa /\ window func s e wa w'.




(** Every call added to the history, whether it returned or raised,
    satisfies [Q]. *)
Definition calling (Q : call -> Prop) (w w' : world) : Prop :=
  exists t, w_trace w' = t ++ w_trace w
            /\ Forall (fun ev => match ev with
                                 | EvCall c _ => Q c
                                 | _ => True
                                 end) t.

(** The connections opened in a history, newest first. *)
Definition opened (t : list event) : list backend :=
  omap (fun ev => match ev with
                  | EvCall (Connect b _) None => Some b
                  | _ => None
                  end) t.

(** Every connection opened since [w] is still held in [w'], and so is every
    handle that was held in [w]. *)
Definition holds (w w' : world) : Prop :=
  exists t, w_trace w' = t ++ w_trace w /\ w_open w' = opened t ++ w_open w.

(** When [m] raises, it has released nothing. *)
Definition unreleased {A} (m : M A) : Prop :=
  forall w e w', m w = (Raise e, w') -> holds w w'.

Definition is_close (c : call) : bool :=
  match c with Close _ => true | _ => false end.



(** What the run of [b] from [w] returned: the empty mapping, for MySQL or
    MongoDB after their guarded step raised an instance of [Exception], or a
    mapping with the six operation names. *)
Definition result_of (b : backend) (w : world) (res : list (string * float)) : Prop :=
  (res = [] /\ (b = MySQL \/ b = MongoDB)
   /\ exists e, fst (connect_step b w) = Raise e /\ is_exception e = true)
  \/ map fst res = operations.

End Failures.

(* PROPERTIES *)

(** * Properties *)

(** ** The generator *)

Section GeneratorFacts.
Context `{R : Random}.

Lemma bind_unfold {A B} (m : M A) (k : A -> M B) (w : world) :
  (m ≫= k) w =
  match m w with
  | (Ok a, w') => k a w'
  | (Raise msg, w') => (Raise msg, w')
  end.
Proof. reflexivity. Qed.

Lemma logged_nil (w : world) : logged [] (w_rng w) w = w.
Proof. by destruct w. Qed.

Lemma logged_logged ds1 s1 ds2 s2 (w : world) :
  logged ds2 s2 (logged ds1 s1 w) = logged (ds1 ++ ds2) s2 w.
Proof.
  unfold logged; simpl. f_equal.
  by rewrite rev_app_distr, map_app, app_assoc.
Qed.

Lemma omap_draws (ds : list draw) :
  omap (fun ev => match ev with EvDraw d => Some d | _ => None end) (map EvDraw ds) = ds.
Proof. induction ds as [|d ds IH]; [done | cbn; f_equal; exact IH]. Qed.


Lemma draw_log_logged ds s (w : world) :
  draw_log (logged ds s w) = draw_log w ++ ds.
Proof.
  unfold draw_log, draws_of, logged; simpl.
  by rewrite omap_app, omap_draws, rev_app_distr, rev_involutive.
Qed.


Lemma users_loop (l : list Z) (acc : list dict) (w : world) :
  for_acc l (fun i users => mret (users ++ [user_record i])) acc w
  = (Ok (acc ++ map user_record l), w).
Proof.
  revert acc; induction l as [|i l IH]; intros acc; simpl.
  - by rewrite app_nil_r.
  - rewrite bind_unfold; simpl. rewrite IH. by rewrite <- app_assoc.
Qed.

Lemma new_order_eq (i : Z) (w : world) :
  new_order i w
  = (Ok (fst (draw_order i (w_rng w))),
     logged order_draws (snd (draw_order i (w_rng w))) w).
Proof.
  unfold new_order, draw_order, random_randint, random_uniform, random_choice.
  rewrite bind_unfold.
  destruct (next_randint 1 5000 (w_rng w)) as [uid s1]; simpl.
  rewrite bind_unfold; simpl.
  destruct (next_uniform 1 500 s1) as [x s2]; simpl.
  rewrite bind_unfold; simpl.
  destruct (next_choice 2 s2) as [j s3]; simpl.
  reflexivity.
Qed.

Lemma orders_loop (l : list Z) (acc : list dict) (w : world) :
  for_acc l (fun i orders => o ← new_order i; mret (orders ++ [o])) acc w
  = (Ok (acc ++ fst (draw_orders l (w_rng w))),
     logged (mjoin (replicate (length l) order_draws))
            (snd (draw_orders l (w_rng w))) w).
Proof.
  revert acc w; induction l as [|i l IH]; intros acc w; simpl.
  - by rewrite app_nil_r, logged_nil.
  - rewrite !bind_unfold, new_order_eq; simpl.
    rewrite IH, logged_logged; simpl.
    destruct (draw_order i (w_rng w)) as [o s1]; simpl.
    destruct (draw_orders l s1) as [os s2]; simpl.
    by rewrite <- app_assoc.
Qed.

Lemma ret_unfold {A} (a : A) (w : world) : (mret a : M A) w = (Ok a, w).
Proof. reflexivity. Qed.

Lemma random_seed_eq (a : Z) (w : world) :
  random_seed a w = (Ok tt, logged [DSeed a] (seed_state a) w).
Proof. reflexivity. Qed.

Lemma w_rng_logged ds s (w : world) : w_rng (logged ds s w) = s.
Proof. reflexivity. Qed.

Lemma length_range (a b : Z) : length (range a b) = Z.to_nat (b - a).
Proof. unfold range. apply length_seqZ. Qed.

(** What one call of the generator returns and leaves behind. *)
Lemma get_dataset_eq (w : world) :
  get_dataset w
  = (Ok (map user_record (range 1 5001), fst generated_orders),
     logged generator_draws (snd generated_orders) w).
Proof.
  unfold get_dataset, generated_orders, generator_draws.
  rewrite bind_unfold, random_seed_eq. lazy beta iota.
  rewrite bind_unfold, users_loop. lazy beta iota.
  rewrite bind_unfold, orders_loop. lazy beta iota.
  rewrite ret_unfold, logged_logged, w_rng_logged, !app_nil_l, length_range.
  replace (20001 - 1) with 20000 by lia.
  reflexivity.
Qed.

Lemma draw_order_fields (i : Z) (s : rng) :
  exists uid x st,
    fst (draw_order i s) = order_record i uid (round x 2) st
    /\ uid = fst (next_randint 1 5000 s)
    /\ x = fst (next_uniform 1 500 (snd (next_randint 1 5000 s))).
Proof.
  unfold draw_order.
  destruct (next_randint 1 5000 s) as [uid s1]; simpl.
  destruct (next_uniform 1 500 s1) as [x s2]; simpl.
  destruct (next_choice 2 s2) as [j s3]; simpl.
  eauto 6.
Qed.

Lemma draw_orders_Forall (P : dict -> Prop) (l : list Z) (s : rng) :
  (forall i s', P (fst (draw_order i s'))) ->
  Forall P (fst (draw_orders l s)).
Proof.
  intros HP. revert s; induction l as [|i l IH]; intros s; simpl.
  - constructor.
  - specialize (HP i s). destruct (draw_order i s) as [o s1]; simpl in *.
    specialize (IH s1). destruct (draw_orders l s1) as [os s2]; simpl in *.
    by constructor.
Qed.

Lemma draw_orders_ids (l : list Z) (s : rng) :
  map (fun o => dict_get o "order_id") (fst (draw_orders l s))
  = map (fun i => Some (VInt i)) l.
Proof.
  revert s; induction l as [|i l IH]; intros s; simpl; [done|].
  destruct (draw_order_fields i s) as (uid & x & st & Hrec & _).
  destruct (draw_order i s) as [o s1]; simpl in *.
  specialize (IH s1). destruct (draw_orders l s1) as [os s2]; simpl in *.
  rewrite IH, Hrec. reflexivity.
Qed.

Lemma user_ids (l : list Z) :
  map (fun u => dict_get u "user_id") (map user_record l)
  = map (fun i => Some (VInt i)) l.
Proof. rewrite map_map. reflexivity. Qed.

Lemma range_seqZ (n m : Z) : m = n + 1 -> range 1 m = seqZ 1 n.
Proof. intros ->. unfold range. f_equal. lia. Qed.

(** Position [i - 1] of a list whose identifiers are [1..n] holds [i]. *)
Lemma ids_at (key : string) (l : list dict) (n i : Z) :
  map (fun d => dict_get d key) l = map (fun i => Some (VInt i)) (seqZ 1 n) ->
  1 <= i <= n ->
  exists d, l !! Z.to_nat (i - 1) = Some d /\ dict_get d key = Some (VInt i).
Proof.
  intros Hmap Hi.
  assert (Hl : map (fun d => dict_get d key) l !! Z.to_nat (i - 1) = Some (Some (VInt i))).
  { rewrite Hmap. change (map ?f ?l) with (f <$> l). rewrite list_lookup_fmap.
    rewrite lookup_seqZ_lt by lia. simpl. do 3 f_equal. lia. }
  change (map ?f ?l) with (f <$> l) in Hl. rewrite list_lookup_fmap in Hl.
  destruct (l !! Z.to_nat (i - 1)) as [d|]; simpl in Hl; [|done].
  exists d. split; [done | congruence].
Qed.

(** C1. Any two invocations of [get_dataset], whatever the state each starts
    in (the second may start where the first ended), return a result, and the
    two [(users, orders)] pairs are equal, every field of every record
    included; they have 5000 and 20000 records. *)
Theorem get_dataset_deterministic (w1 w2 : world) :
  exists users orders,
    fst (get_dataset w1) = Ok (users, orders)
    /\ fst (get_dataset w2) = Ok (users, orders)
    /\ fst (get_dataset (snd (get_dataset w1))) = Ok (users, orders)
    /\ length users = Z.to_nat 5000
    /\ length orders = Z.to_nat 20000.
Proof.
  exists (map user_record (range 1 5001)), (fst generated_orders).
  rewrite !get_dataset_eq; cbn [fst].
  do 3 (split; [reflexivity|]). split.
  - rewrite length_map, length_range. f_equal.
  - rewrite <- (length_map (fun o => dict_get o "order_id")).
    unfold generated_orders. rewrite draw_orders_ids, length_map, length_range.
    f_equal.
Qed.

(** C2. Every generated order has [1 <= user_id <= 5000], given that
    [randint(a, b)] keeps to its range; the [user_id]s of the users are
    exactly [1..5000] in order and the [order_id]s of the orders exactly
    [1..20000] in order, the record at position [i - 1] holding [i]. *)
Theorem identifiers_dense
  (randint_range : forall a b s, a <= b -> a <= fst (next_randint a b s) <= b)
  (w : world) :
  exists users orders,
    fst (get_dataset w) = Ok (users, orders)
    /\ Forall (fun o => exists uid,
                 dict_get o "user_id" = Some (VInt uid) /\ 1 <= uid <= 5000) orders
    /\ map (fun u => dict_get u "user_id") users
       = map (fun i => Some (VInt i)) (seqZ 1 5000)
    /\ map (fun o => dict_get o "order_id") orders
       = map (fun i => Some (VInt i)) (seqZ 1 20000)
    /\ (forall i, 1 <= i <= 5000 -> exists u,
          users !! Z.to_nat (i - 1) = Some u /\ dict_get u "user_id" = Some (VInt i))
    /\ (forall i, 1 <= i <= 20000 -> exists o,
          orders !! Z.to_nat (i - 1) = Some o /\ dict_get o "order_id" = Some (VInt i)).
Proof.
  exists (map user_record (range 1 5001)), (fst generated_orders).
  rewrite get_dataset_eq; cbn [fst].
  assert (Hu : map (fun u => dict_get u "user_id") (map user_record (range 1 5001))
               = map (fun i => Some (VInt i)) (seqZ 1 5000)).
  { rewrite user_ids. by rewrite (range_seqZ 5000) by lia. }
  assert (Ho : map (fun o => dict_get o "order_id") (fst generated_orders)
               = map (fun i => Some (VInt i)) (seqZ 1 20000)).
  { unfold generated_orders. rewrite draw_orders_ids. by rewrite (range_seqZ 20000) by lia. }
  split; [done|]. split; [|split; [done|split; [done|split]]].
  - apply draw_orders_Forall. intros i s.
    destruct (draw_order_fields i s) as (uid & x & st & -> & -> & _).
    eexists. split; [reflexivity|]. apply randint_range. lia.
  - intros i Hi. by apply (ids_at "user_id" _ 5000).
  - intros i Hi. by apply (ids_at "order_id" _ 20000).
Qed.



(** C10. [get_dataset] seeds the global generator with 42 before anything
    else.  Whatever state the generator was in before the call, the call
    returns the same [(users, orders)] pair, and the state it leaves is the one
    reached from [seed(42)] by the draws of the 20000 orders. *)
Theorem get_dataset_reseeds (s1 s2 : rng) (w : world) :
  (exists d, fst (get_dataset (set_rng s1 w)) = Ok d
             /\ fst (get_dataset (set_rng s2 w)) = Ok d)
  /\ w_rng (snd (get_dataset (set_rng s1 w))) = w_rng (snd (get_dataset (set_rng s2 w)))
  /\ w_rng (snd (get_dataset (set_rng s1 w)))
     = snd (draw_orders (range 1 20001) (seed_state 42))
  /\ exists rest,
       draw_log (snd (get_dataset (set_rng s1 w))) = draw_log w ++ DSeed 42 :: rest.
Proof.
  rewrite !get_dataset_eq. cbn [fst snd]. rewrite !w_rng_logged.
  split; [eauto|]. split; [done|]. split; [done|].
  rewrite draw_log_logged. unfold generator_draws. eauto.
Qed.

End GeneratorFacts.

(** ** Rounding to two decimals *)

Section FloatFacts.

Lemma float_same_eq (x y : float) : float_same x y = true -> x = y.
Proof.
  destruct x as [s|s| |s m e], y as [s'|s'| |s' m' e']; simpl; try discriminate.
  - intros H%eqb_prop. by subst.
  - intros H%eqb_prop. by subst.
  - done.
  - rewrite !andb_true_iff. intros [[H1%eqb_prop H2%Pos.eqb_eq] H3%Z.eqb_eq].
    by subst.
Qed.

Lemma all_from_spec (ok : Z -> bool) (n : nat) (k : Z) :
  all_from ok n k = true ->
  forall j, k <= j < k + Z.of_nat n -> ok j = true.
Proof.
  revert k; induction n as [|n IH]; intros k Hall j Hj; [lia|].
  simpl in Hall. apply andb_true_iff in Hall as [Hk Hrest].
  destruct (decide (j = k)) as [->|Hne]; [done|].
  apply (IH (k + 1)); [done | lia].
Qed.

(** Every amount of hundredths from 1.00 to 500.00, checked by evaluation. *)
Lemma cents_checked : all_from cents_ok (Z.to_nat 49901) 100 = true.
Proof. vm_cast_no_check (eq_refl true). Qed.

Lemma cents_ok_spec (k : Z) :
  100 <= k <= 50000 ->
  is_double (nearest k 100) = true
  /\ fleb (float_of_Z 1) (nearest k 100) = true
  /\ fleb (nearest k 100) (float_of_Z 500) = true
  /\ round (nearest k 100) 2 = nearest k 100.
Proof.
  intros Hk.
  pose proof (all_from_spec _ _ _ cents_checked k) as H.
  rewrite Z2Nat.id in H by lia. specialize (H ltac:(lia)).
  unfold cents_ok in H. rewrite !andb_true_iff in H.
  destruct H as [[[H1 H2] H3] H4%float_same_eq]. done.
Qed.

Lemma digits2_pos_bounds (m : positive) :
  2 ^ (Zpos (digits2_pos m) - 1) <= Zpos m < 2 ^ Zpos (digits2_pos m).
Proof.
  induction m as [m IH|m IH|]; simpl digits2_pos.
  - rewrite Pos2Z.inj_succ.
    replace (Z.succ (Z.pos (digits2_pos m)) - 1) with (Z.succ (Z.pos (digits2_pos m) - 1)) by lia.
    rewrite !Z.pow_succ_r by lia. lia.
  - rewrite Pos2Z.inj_succ.
    replace (Z.succ (Z.pos (digits2_pos m)) - 1) with (Z.succ (Z.pos (digits2_pos m) - 1)) by lia.
    rewrite !Z.pow_succ_r by lia. lia.
  - simpl. lia.
Qed.

Lemma div_half_even_between (n d a b : Z) :
  0 < d -> a * d <= n <= b * d -> a <= div_half_even n d <= b.
Proof.
  intros Hd Hn. unfold div_half_even.
  pose proof (Z.div_mod n d ltac:(lia)) as Hqr.
  pose proof (Z.mod_pos_bound n d Hd) as Hr.
  set (q := n / d) in *. set (r := n mod d) in *.
  assert (a <= q) by nia.
  assert (q <= b) by nia.
  assert (0 < r -> q < b) by nia.
  destruct (Z.compare_spec (2 * r) d); [destruct (Z.even q)|..]; lia.
Qed.

(** A binary64 value between 1.0 and 500.0 is [m * 2^e] with a 53-bit [m]. *)
Lemma in_range_shape (x : float) :
  is_double x = true ->
  fleb (float_of_Z 1) x = true ->
  fleb x (float_of_Z 500) = true ->
  exists m e, x = S754_finite false m e
              /\ -52 <= e <= -44
              /\ 2 ^ (- e) <= Zpos m <= 500 * 2 ^ (- e).
Proof.
  change (float_of_Z 1) with one. change (float_of_Z 500) with five_hundred.
  unfold one, five_hundred, fleb, SFleb, is_double.
  destruct x as [s|s| |[|] m e]; unfold SFcompare, valid_binary; cbv beta iota;
    try discriminate.
  - destruct s; discriminate.
  - intros Hvalid Hlo Hhi. exists m, e. split; [done|].
    unfold bounded, canonical_mantissa, fexp, emin, prec, emax in Hvalid.
    apply andb_true_iff in Hvalid as [Hcanon%Z.eqb_eq _].
    pose proof (digits2_pos_bounds m) as Hdig.
    assert (He : -52 <= e <= -44).
    { destruct (Z.compare_spec (-52) e), (Z.compare_spec e (-44));
        try discriminate; lia. }
    assert (Hd : Zpos (digits2_pos m) = 53) by lia.
    rewrite Hd in Hdig. split; [done|].
    assert (Hm : (e = -52 -> 4503599627370496 <= Zpos m)
                 /\ (e = -44 -> Zpos m <= 8796093022208000)).
    { split; intros ->.
      - rewrite Z.compare_refl in Hlo.
        pose proof (Pos.compare_spec 4503599627370496 m) as Hs.
        unfold Pos.compare in Hs. revert Hlo.
        destruct Hs as [Heq|Hs|Hs]; intros Hlo; try discriminate.
        + subst m. apply Z.le_refl.
        + apply Pos2Z.pos_lt_pos in Hs. by apply Z.lt_le_incl.
      - rewrite Z.compare_refl in Hhi.
        pose proof (Pos.compare_spec m 8796093022208000) as Hs.
        unfold Pos.compare in Hs. revert Hhi.
        destruct Hs as [Heq|Hs|Hs]; intros Hhi; try discriminate.
        + subst m. apply Z.le_refl.
        + apply Pos2Z.pos_lt_pos in Hs. by apply Z.lt_le_incl. }
    destruct Hm as [Hm1 Hm2].
    change (2 ^ (53 - 1)) with 4503599627370496 in Hdig.
    change (2 ^ 53) with 9007199254740992 in Hdig.
    assert (Hcases : e = -52 \/ e = -51 \/ e = -50 \/ e = -49 \/ e = -48
                     \/ e = -47 \/ e = -46 \/ e = -45 \/ e = -44) by lia.
    destruct Hcases as [->|[->|[->|[->|[->|[->|[->|[->| ->]]]]]]]];
      match goal with |- context [2 ^ ?k] =>
        let v := eval vm_compute in (2 ^ k) in change (2 ^ k) with v end;
      lia.
Qed.

(** Rounding such a value to two decimals gives a whole number of hundredths
    between 100 and 50000, read back as a double. *)
Lemma round_in_range (x : float) :
  is_double x = true ->
  fleb (float_of_Z 1) x = true ->
  fleb x (float_of_Z 500) = true ->
  exists k, 100 <= k <= 50000 /\ round x 2 = nearest k 100.
Proof.
  intros Hvalid Hlo Hhi.
  destruct (in_range_shape x Hvalid Hlo Hhi) as (m & e & -> & He & Hm).
  exists (scaled m e 2).
  assert (Hk : 100 <= scaled m e 2 <= 50000).
  { unfold scaled. destruct (Z.leb_spec 0 e); [lia|].
    change (10 ^ Z.of_N 2) with 100.
    apply div_half_even_between; [apply Z.pow_pos_nonneg; lia | lia]. }
  split; [done|]. unfold round.
  destruct (Z.eqb_spec (scaled m e 2) 0); [lia|]. reflexivity.
Qed.
End FloatFacts.

Section AmountFacts.
Context `{R : Random}.

(** C3. Every generated order has an amount between 1.00 and 500.00 that is
    a whole number of hundredths, given that [uniform(1, 500)] returns a double
    between 1.0 and 500.0: the amount is the double nearest to [k / 100] for an
    integer [k] with [100 <= k <= 50000], it compares [>= 1.0] and [<= 500.0],
    and rounding it to two decimals again leaves it unchanged. *)
Theorem amounts_in_range
  (uniform_range : forall s,
      is_double (fst (next_uniform 1 500 s)) = true
      /\ fleb (float_of_Z 1) (fst (next_uniform 1 500 s)) = true
      /\ fleb (fst (next_uniform 1 500 s)) (float_of_Z 500) = true)
  (w : world) :
  exists users orders,
    fst (get_dataset w) = Ok (users, orders)
    /\ Forall (fun o => exists amount k,
                 dict_get o "amount" = Some (VFloat amount)
                 /\ fleb (float_of_Z 1) amount = true
                 /\ fleb amount (float_of_Z 500) = true
                 /\ 100 <= k <= 50000
                 /\ amount = nearest k 100
                 /\ round amount 2 = amount) orders.
Proof.
  exists (map user_record (range 1 5001)), (fst generated_orders).
  rewrite get_dataset_eq; cbn [fst]. split; [done|].
  apply draw_orders_Forall. intros i s.
  destruct (draw_order_fields i s) as (uid & x & st & -> & _ & ->).
  destruct (uniform_range (snd (next_randint 1 5000 s))) as (Hv & Hlo & Hhi).
  destruct (round_in_range _ Hv Hlo Hhi) as (k & Hk & Hround).
  destruct (cents_ok_spec k Hk) as (_ & Hlo' & Hhi' & Hidem).
  exists (nearest k 100), k. rewrite Hround.
  split; [reflexivity|]. split; [exact Hlo'|]. split; [exact Hhi'|].
  split; [exact Hk|]. split; [reflexivity | exact Hidem].
Qed.
End AmountFacts.

(** ** More on the generated records *)

Section RecordFacts.
Context `{R : Random}.

Lemma str_inj (a b : Z) : str a = str b -> a = b.
Proof.
  assert (Hnil : forall z, Z.to_int z <> Decimal.Pos Decimal.Nil
                           /\ Z.to_int z <> Decimal.Neg Decimal.Nil).
  { intros z. split; intros Hc; pose proof (f_equal Z.of_int Hc) as Hz;
      rewrite DecimalZ.of_to in Hz; simpl in Hz; subst z; discriminate Hc. }
  intros Heq. unfold str in Heq.
  apply (f_equal NilZero.int_of_string) in Heq.
  rewrite !NilZero.isi in Heq by apply Hnil.
  injection Heq as Heq. apply (f_equal Z.of_int) in Heq.
  by rewrite !DecimalZ.of_to in Heq.
Qed.

Lemma length_append (s t : string) :
  String.length (String.append s t) = (String.length s + String.length t)%nat.
Proof. induction s as [|c s IH]; simpl; [done | by rewrite IH]. Qed.

Lemma append_inj_r (s1 s2 t : string) :
  String.append s1 t = String.append s2 t -> s1 = s2.
Proof.
  revert s2; induction s1 as [|c s1 IH]; intros [|c' s2] Heq; simpl in Heq.
  - done.
  - apply (f_equal String.length) in Heq. simpl in Heq.
    rewrite length_append in Heq. lia.
  - apply (f_equal String.length) in Heq. simpl in Heq.
    rewrite length_append in Heq. lia.
  - injection Heq as -> Heq. f_equal. by apply IH.
Qed.

Lemma name_inj (i j : Z) :
  dict_get (user_record i) "name" = dict_get (user_record j) "name" -> i = j.
Proof.
  unfold user_record, cat; simpl. intros [= Heq].
  apply str_inj. by apply (append_inj_r _ _ EmptyString).
Qed.

Lemma email_inj (i j : Z) :
  dict_get (user_record i) "email" = dict_get (user_record j) "email" -> i = j.
Proof.
  unfold user_record, cat; simpl. intros [= Heq].
  apply str_inj. by apply (append_inj_r _ _ "@example.com").
Qed.

Lemma draw_order_status (i : Z) (s : rng) :
  exists st, dict_get (fst (draw_order i s)) "status" = Some (VStr st)
             /\ (st = "PENDING" \/ st = "PAID" \/ st = "CANCELLED").
Proof.
  unfold draw_order.
  destruct (next_randint 1 5000 s) as [uid s1].
  destruct (next_uniform 1 500 s1) as [x s2].
  destruct (next_choice 2 s2) as [j s3]. cbn [fst].
  eexists. split; [reflexivity|].
  pose proof (fin_to_nat_lt j) as Hj.
  destruct (fin_to_nat j) as [|[|[|n]]]; simpl; [auto | auto | auto | lia].
Qed.

(** X1. Every generated order has a status, and it is one of the three
    strings of the script's list: PENDING, PAID or CANCELLED. *)
Theorem statuses_valid (w : world) :
  exists users orders,
    fst (get_dataset w) = Ok (users, orders)
    /\ Forall (fun o => exists st,
                 dict_get o "status" = Some (VStr st)
                 /\ (st = "PENDING" \/ st = "PAID" \/ st = "CANCELLED")) orders.
Proof.
  exists (map user_record (range 1 5001)), (fst generated_orders).
  rewrite get_dataset_eq; cbn [fst]. split; [done|].
  apply draw_orders_Forall. intros i s. apply draw_order_status.
Qed.

(** X2. No two generated users share a name, and no two share an email
    address: the decimal rendering of the identifier tells them apart. *)
Theorem names_and_emails_unique (w : world) :
  exists users orders,
    fst (get_dataset w) = Ok (users, orders)
    /\ NoDup (map (fun u => dict_get u "name") users)
    /\ NoDup (map (fun u => dict_get u "email") users).
Proof.
  exists (map user_record (range 1 5001)), (fst generated_orders).
  rewrite get_dataset_eq; cbn [fst]. split; [done|].
  rewrite !map_map. unfold range.
  split; apply (NoDup_fmap_2_strong _ (seqZ 1 (5001 - 1)));
    try apply NoDup_seqZ; intros i j _ _ Heq.
  - by apply name_inj.
  - by apply email_inj.
Qed.

(** X3. Every generated user has exactly the four fields of the [users]
    table and every generated order the five fields of the [orders] table, in
    column order; so the parameter tuples that the SQL [INSERT] loops build
    are the values of the record, and building them raises no [KeyError]. *)
Theorem records_match_columns `{D : !Drivers} (w : world) :
  exists users orders,
    fst (get_dataset w) = Ok (users, orders)
    /\ Forall (fun u => map fst u = ["user_id"; "name"; "email"; "created_at"]
                        /\ forall w', user_params u w' = (Ok (map snd u), w')) users
    /\ Forall (fun o => map fst o = ["order_id"; "user_id"; "amount"; "status";
                                     "created_at"]
                        /\ forall w', order_params o w' = (Ok (map snd o), w')) orders.
Proof.
  exists (map user_record (range 1 5001)), (fst generated_orders).
  rewrite get_dataset_eq; cbn [fst]. split; [done|]. split.
  - apply Forall_map, Forall_true. intros i. split; reflexivity.
  - apply draw_orders_Forall. intros i s.
    destruct (draw_order_fields i s) as (uid & x & st & -> & _). split; reflexivity.
Qed.
End RecordFacts.

(** ** The harness *)

Section HarnessFacts.
Context `{D : Drivers}.

Lemma bind_Ok {A B} (m : M A) (k : A -> M B) (w w' : world) (b : B) :
  (m ≫= k) w = (Ok b, w') ->
  exists a w1, m w = (Ok a, w1) /\ k a w1 = (Ok b, w').
Proof.
  rewrite bind_unfold. destruct (m w) as [[a|msg] w1]; [eauto | discriminate].
Qed.

Lemma bind_Ok_eq {A B} (m : M A) (k : A -> M B) (w w1 : world) (a : A) :
  m w = (Ok a, w1) -> (m ≫= k) w = k a w1.
Proof. intros Heq. by rewrite bind_unfold, Heq. Qed.


Global Instance untimed_preorder : PreOrder untimed.
Proof.
  split.
  - intros w. split; [done | lia].
  - intros w1 w2 w3 [H1 H2] [H3 H4]. split; [congruence | lia].
Qed.

Global Instance same_open_preorder : PreOrder same_open.
Proof. split; [done | intros w1 w2 w3 H1 H2; unfold same_open in *; congruence]. Qed.

Global Instance same_data_preorder : PreOrder same_data.
Proof.
  split; [done|].
  intros w1 w2 w3 [H1 H2] [H3 H4]. split; congruence.
Qed.

Lemma rising_le (lo hi : Z) (rs : list Z) : rising lo rs hi -> lo <= hi.
Proof.
  revert lo; induction rs as [|t rs IH]; intros lo; simpl; [done|].
  intros [H1 H2%IH]. lia.
Qed.

Lemma rising_app (lo mid hi : Z) (rs1 rs2 : list Z) :
  rising lo rs1 mid -> rising mid rs2 hi -> rising lo (rs1 ++ rs2) hi.
Proof.
  revert lo; induction rs1 as [|t rs1 IH]; intros lo; simpl.
  - intros H1 H2. destruct rs2 as [|t rs2]; simpl in *; [lia|].
    split; [lia | tauto].
  - intros [H1 H2] H3. split; [done | by apply IH].
Qed.

Global Instance later_preorder : PreOrder later.
Proof.
  split.
  - intros w. exists []. split; [by rewrite app_nil_r | simpl; lia].
  - intros w1 w2 w3 (rs1 & H1 & H2) (rs2 & H3 & H4). exists (rs1 ++ rs2).
    split; [by rewrite H3, H1, app_assoc | by eapply rising_app].
Qed.

Lemma untimed_later (w w' : world) : untimed w w' -> later w w'.
Proof. intros [H1 H2]. exists []. split; [by rewrite app_nil_r | done]. Qed.

(** *** Structural rules *)

Lemma keeps_ret (R : relation world) `{!Reflexive R} {A} (a : A) :
  keeps R (mret a : M A).
Proof. intros w. reflexivity. Qed.

Lemma keeps_raise (R : relation world) `{!Reflexive R} {A} (msg : exn) :
  keeps R (raise msg : M A).
Proof. intros w. reflexivity. Qed.

Lemma keeps_read (R : relation world) `{!Reflexive R} {A} (f : world -> A) :
  keeps R (read f).
Proof. intros w. reflexivity. Qed.

Lemma keeps_bind (R : relation world) `{!Transitive R} {A B}
    (m : M A) (k : A -> M B) :
  keeps R m -> (forall a, keeps R (k a)) -> keeps R (m ≫= k).
Proof.
  intros Hm Hk w. rewrite bind_unfold. specialize (Hm w).
  destruct (m w) as [[a|msg] w1]; simpl in *; [|done].
  etrans; [exact Hm | apply Hk].
Qed.

Lemma keeps_try (R : relation world) `{!Transitive R} {A}
    (body : M A) (handler : exn -> M A) :
  keeps R body -> (forall e, keeps R (handler e)) -> keeps R (try_except body handler).
Proof.
  intros Hm Hk w. unfold try_except. specialize (Hm w).
  destruct (body w) as [[a|e] w1]; simpl in *; [done|].
  destruct (is_exception e); [|done].
  etrans; [exact Hm | apply Hk].
Qed.

Lemma keeps_for (R : relation world) `{!PreOrder R} {B}
    (l : list B) (body : B -> M unit) :
  (forall x, keeps R (body x)) -> keeps R (for_ l body).
Proof.
  intros Hbody. induction l as [|x l IH].
  - apply (keeps_ret R tt).
  - apply (keeps_bind R (body x) (fun _ => for_ l body)); [apply Hbody | intros _; exact IH].
Qed.

Lemma keeps_for_each (R : relation world) `{!PreOrder R}
    (l : shared) (body : nat -> dict -> M unit) :
  (forall i u, keeps R (body i u)) -> keeps R (for_each l body).
Proof.
  intros Hbody w. unfold for_each.
  apply (keeps_for R (seq 0 (length (items l w)))
           (fun i w' => match items l w' !! i with
                        | Some u => body i u w'
                        | None => (Ok tt, w')
                        end)).
  intros i w'. simpl. destruct (items l w' !! i); [apply Hbody | simpl; reflexivity].
Qed.

Lemma keeps_getitem (R : relation world) `{!Reflexive R} (u : dict) (key : string) :
  keeps R (getitem u key).
Proof. unfold getitem. destruct (dict_get u key); intros w; reflexivity. Qed.

(** *** The primitive steps *)

Lemma readings_record_clock (ns : Z) (w : world) :
  readings (record (EvClock ns) w) = readings w ++ [ns].
Proof. reflexivity. Qed.

Lemma untimed_print (line : string) : keeps untimed (print line).
Proof. intros w. split; [reflexivity | simpl; lia]. Qed.

Lemma untimed_ext (c : call) : keeps untimed (ext c).
Proof.
  intros w. unfold ext. destruct (raised (driver c w)); split; simpl;
    solve [reflexivity | lia].
Qed.

Lemma untimed_ext_ref (c : dict -> call) (l : shared) (i : nat) :
  keeps untimed (ext_ref c l i).
Proof.
  intros w. unfold ext_ref. destruct (items l w !! i) as [u|]; [|reflexivity].
  destruct (raised (driver (c u) w)), l; split; simpl; solve [reflexivity | lia].
Qed.

Lemma same_open_print (line : string) : keeps same_open (print line).
Proof. intros w. reflexivity. Qed.

Lemma same_open_ext (c : call) :
  (forall l, handles_after c l = l) -> keeps same_open (ext c).
Proof.
  intros Hc w. unfold ext. destruct (raised (driver c w)); [reflexivity|].
  unfold same_open; simpl. apply Hc.
Qed.

Lemma same_open_ext_ref (c : dict -> call) (l : shared) (i : nat) :
  keeps same_open (ext_ref c l i).
Proof.
  intros w. unfold ext_ref. destruct (items l w !! i) as [u|]; [|reflexivity].
  destruct (raised (driver (c u) w)), l; reflexivity.
Qed.

Lemma same_open_perf_counter : keeps same_open perf_counter.
Proof. intros w. reflexivity. Qed.

Lemma same_data_print (line : string) : keeps same_data (print line).
Proof. intros w. split; reflexivity. Qed.

Lemma same_data_ext (c : call) : keeps same_data (ext c).
Proof.
  intros w. unfold ext. destruct (raised (driver c w)); split; reflexivity.
Qed.

Lemma same_data_perf_counter : keeps same_data perf_counter.
Proof. intros w. split; reflexivity. Qed.

(** A call that is handed a record by reference leaves the shared lists as
    they are when the callee does not write to its argument. *)
Lemma same_data_ext_ref (c : dict -> call) (l : shared) (i : nat) :
  (forall u, mutate (c u) u = u) -> keeps same_data (ext_ref c l i).
Proof.
  intros Hc w. unfold ext_ref. destruct (items l w !! i) as [u|] eqn:Hu; [|reflexivity].
  rewrite Hc.
  assert (Hid : <[i := u]> (items l w) = items l w) by by apply list_insert_id.
  destruct (raised (driver (c u) w)), l; simpl in *; rewrite Hid; split; reflexivity.
Qed.

Lemma later_print (line : string) : keeps later (print line).
Proof. intros w. apply untimed_later, untimed_print. Qed.

Lemma later_ext (c : call) : keeps later (ext c).
Proof. intros w. apply untimed_later, untimed_ext. Qed.

Lemma later_ext_ref (c : dict -> call) (l : shared) (i : nat) :
  keeps later (ext_ref c l i).
Proof. intros w. apply untimed_later, untimed_ext_ref. Qed.

Lemma later_perf_counter : keeps later perf_counter.
Proof.
  intros w. unfold perf_counter; cbn [snd].
  exists [w_clock w + Z.of_N (elapsed (driver Tick w))]. split; [reflexivity|].
  simpl. lia.
Qed.

(** What a clock read returns and records. *)
Lemma perf_counter_eq (w : world) :
  exists t, w_clock w <= t
            /\ perf_counter w = (Ok (seconds t), record (EvClock t) (advance (Z.to_N (t - w_clock w)) w))
            /\ w_clock (snd (perf_counter w)) = t.
Proof.
  exists (w_clock w + Z.of_N (elapsed (driver Tick w))). split; [lia|].
  unfold perf_counter. split; [|reflexivity].
  replace (Z.to_N (w_clock w + Z.of_N (elapsed (driver Tick w)) - w_clock w))
    with (elapsed (driver Tick w)) by lia.
  reflexivity.
Qed.

(** *** Putting steps together *)

Lemma keeps_at (R : relation world) {A} (m : M A) (w w' : world) (r : outcome A) :
  keeps R m -> m w = (r, w') -> R w w'.
Proof. intros Hm Heq. specialize (Hm w). by rewrite Heq in Hm. Qed.

Lemma flat_app (ws1 ws2 : list (Z * Z)) : flat (ws1 ++ ws2) = flat ws1 ++ flat ws2.
Proof.
  induction ws1 as [|[s e] ws1 IH]; simpl; [done | by rewrite IH].
Qed.

Lemma step_refl (w : world) : step [] (fun l => l) w w.
Proof. split; [by rewrite app_nil_r | split; [simpl; lia | done]]. Qed.

Lemma step_trans ws1 ws2 f1 f2 (w1 w2 w3 : world) :
  step ws1 f1 w1 w2 -> step ws2 f2 w2 w3 ->
  step (ws1 ++ ws2) (fun l => f2 (f1 l)) w1 w3.
Proof.
  intros (H1 & H2 & H3) (H4 & H5 & H6). split; [|split].
  - by rewrite H4, H1, flat_app, app_assoc.
  - rewrite flat_app. by eapply rising_app.
  - by rewrite H6, H3.
Qed.

Lemma step_quiet {A} (m : M A) (w w' : world) (r : outcome A) :
  keeps untimed m -> keeps same_open m -> m w = (r, w') ->
  step [] (fun l => l) w w'.
Proof.
  intros H1 H2 Heq.
  destruct (keeps_at _ _ _ _ _ H1 Heq) as [Hr Hc].
  pose proof (keeps_at _ _ _ _ _ H2 Heq) as Ho.
  split; [by rewrite app_nil_r | split; [exact Hc | exact Ho]].
Qed.

Lemma step_ext (c : call) (w w' : world) (a : bool) :
  ext c w = (Ok a, w') -> step [] (handles_after c) w w'.
Proof.
  intros Heq. destruct (keeps_at _ _ _ _ _ (untimed_ext c) Heq) as [Hr Hc].
  split; [by rewrite app_nil_r | split; [exact Hc|]].
  unfold ext in Heq. destruct (raised (driver c w)); [discriminate|].
  by injection Heq as _ <-.
Qed.

Lemma step_measure (bench bench' : Benchmark) (name : string) (func : M unit)
    (w w' : world) :
  keeps untimed func -> keeps same_open func ->
  measure bench name func w = (Ok bench', w') ->
  exists s e,
    step [(s, e)] (fun l => l) w w'
    /\ bench' = mkBenchmark (db_name bench)
                  (dict_set (results bench) name (duration_ms (seconds s) (seconds e))).
Proof.
  intros Hu Ho Heq. unfold measure in Heq.
  apply bind_Ok in Heq as (start & w1 & H1 & Heq).
  apply bind_Ok in Heq as ([] & w2 & H2 & Heq).
  apply bind_Ok in Heq as (end_ & w3 & H3 & Heq).
  apply bind_Ok in Heq as ([] & w4 & H4 & Heq).
  injection Heq as <- <-.
  unfold perf_counter in H1, H3. injection H1 as <- <-. injection H3 as <- <-.
  injection H4 as <-.
  destruct (keeps_at _ _ _ _ _ Hu H2) as [Hr Hc].
  pose proof (keeps_at _ _ _ _ _ Ho H2) as Hopen.
  eexists _, _. split; [|reflexivity].
  split; [|split].
  - transitivity (readings w2 ++ [w_clock w2 + Z.of_N (elapsed (driver Tick w2))]);
      [reflexivity|].
    rewrite Hr.
    transitivity ((readings w ++ [w_clock w + Z.of_N (elapsed (driver Tick w))])
                  ++ [w_clock w2 + Z.of_N (elapsed (driver Tick w2))]);
      [reflexivity|].
    by rewrite <- app_assoc.
  - cbn in *. lia.
  - cbn in *. exact Hopen.
Qed.

(** [keeps R m] for a computation built from the primitives. *)
Ltac keeps_step :=
  lazymatch goal with
  | |- keeps ?R (mret ?a) => apply (keeps_ret R a)
  | |- keeps ?R (raise ?e) => apply (keeps_raise R e)
  | |- keeps ?R (read ?f) => apply (keeps_read R f)
  | |- keeps ?R (getitem ?u ?k) => apply (keeps_getitem R u k)
  | |- keeps ?R (?m ≫= ?k) => apply (keeps_bind R m k); [|intros ?]
  | |- keeps ?R (for_ ?l ?f) => apply (keeps_for R l f); intros ?
  | |- keeps ?R (for_each ?l ?f) => apply (keeps_for_each R l f); intros ? ?
  | |- keeps ?R (try_except ?m ?h) => apply (keeps_try R m h); [|intros ?]
  | |- keeps _ (if ?b then _ else _) => destruct b
  | |- keeps untimed (print _) => apply untimed_print
  | |- keeps untimed (ext _) => apply untimed_ext
  | |- keeps untimed (ext_ref _ _ _) => apply untimed_ext_ref
  | |- keeps same_open (print _) => apply same_open_print
  | |- keeps same_open (ext _) => apply same_open_ext; intros ?; reflexivity
  | |- keeps same_open (ext_ref _ _ _) => apply same_open_ext_ref
  | |- keeps same_open perf_counter => apply same_open_perf_counter
  | |- keeps same_data (print _) => apply same_data_print
  | |- keeps same_data (ext _) => apply same_data_ext
  | |- keeps same_data perf_counter => apply same_data_perf_counter
  | |- keeps same_data (ext_ref _ _ _) => apply same_data_ext_ref; intros ?; auto
  | |- keeps later (print _) => apply later_print
  | |- keeps later (ext _) => apply later_ext
  | |- keeps later (ext_ref _ _ _) => apply later_ext_ref
  | |- keeps later perf_counter => apply later_perf_counter
  end.

Ltac unfold_harness :=
  unfold run, run_sqlite, run_mysql, run_mongodb, run_tinydb,
    sqlite_insert_data, sqlite_read_point, sqlite_read_range,
    sqlite_read_user_orders, sqlite_update_op, sqlite_delete_op,
    mysql_insert_data, mysql_read_point, mysql_read_range,
    mysql_read_user_orders, mysql_update_op, mysql_delete_op, mysql_connect,
    mongodb_insert_data, mongodb_read_point, mongodb_read_range,
    mongodb_read_user_orders, mongodb_update_op, mongodb_delete_op,
    mongodb_connect,
    tinydb_insert_data, tinydb_read_point, tinydb_read_range,
    tinydb_read_user_orders, tinydb_update_op, tinydb_delete_op,
    measure, execute, method, user_params, order_params;
  cbv zeta.

Ltac solve_keeps := unfold_harness; repeat keeps_step.

(** Whatever its outcome, a backend run only adds clock readings that do not
    decrease. *)
Lemma later_run (b : backend) : keeps later (run b).
Proof. destruct b; solve_keeps. Qed.

Lemma same_data_run (b : backend) :
  b <> TinyDB -> keeps same_data (run b).
Proof. destruct b; try done; intros _; solve_keeps. Qed.

Lemma same_data_run_tinydb :
  (forall name u, mutate (Method TinyDB name [VDict u]) u = u) ->
  keeps same_data (run TinyDB).
Proof. intros Hmut. solve_keeps. Qed.

(** *** Runs that return *)

Lemma try_Ok {A} (body : M A) (handler : exn -> M A) (w w' : world) (a : A) :
  try_except body handler w = (Ok a, w') ->
  body w = (Ok a, w')
  \/ exists e w1, body w = (Raise e, w1) /\ is_exception e = true
                  /\ handler e w1 = (Ok a, w').
Proof.
  unfold try_except. destruct (body w) as [[a'|e] w1]; [by left|].
  destruct (is_exception e) eqn:He; [right; eauto | discriminate].
Qed.

Lemma bind_Raise {A B} (m : M A) (k : A -> M B) (w w' : world) (e : exn) :
  (m ≫= k) w = (Raise e, w') ->
  m w = (Raise e, w')
  \/ exists a w1, m w = (Ok a, w1) /\ k a w1 = (Raise e, w').
Proof.
  rewrite bind_unfold. destruct (m w) as [[a|msg] w1]; [eauto|].
  intros [= -> ->]. by left.
Qed.

Lemma step_ext_Raise (c : call) (w w' : world) (e : exn) :
  ext c w = (Raise e, w') ->
  step [] (fun l => l) w w' /\ raised (driver c w) = Some e.
Proof.
  intros Heq. destruct (keeps_at _ _ _ _ _ (untimed_ext c) Heq) as [Hr Hc].
  unfold ext in Heq. destruct (raised (driver c w)) as [msg|]; [|discriminate].
  injection Heq as -> <-.
  split; [|done]. split; [by rewrite app_nil_r | split; [exact Hc | reflexivity]].
Qed.

Ltac step_of Hm :=
  lazymatch type of Hm with
  | measure _ _ _ _ = _ =>
      let s := fresh "s" in
      let e := fresh "e" in
      apply step_measure in Hm as (s & e & Hm & ->); [| solve_keeps | solve_keeps]
  | ext (Connect _ _) _ = _ => apply step_ext in Hm
  | ext (Close _) _ = _ => apply step_ext in Hm
  | _ => eapply step_quiet in Hm; [| solve_keeps | solve_keeps]
  end.

(** Walks down [H : (m1;; m2;; ...) wi = (Ok res, w')], keeping in [Hacc] the
    step from the first state to the current one. *)
Ltac chain Hacc H :=
  repeat (let a := fresh "a" in
          let wj := fresh "w" in
          let Hm := fresh "Hm" in
          let Hacc' := fresh "Hacc" in
          apply bind_Ok in H as (a & wj & Hm & H);
          step_of Hm;
          cbn [db_name results] in H;
          pose proof (step_trans _ _ _ _ _ _ _ Hacc Hm) as Hacc';
          clear Hacc Hm; rename Hacc' into Hacc).

Ltac finish_measured Hacc H :=
  injection H as <- <-;
  destruct Hacc as (Hr & Hc & Ho);
  eexists; split; [|split; [split; [exact Hr | split; [exact Hc|]] | reflexivity]];
  [reflexivity|].

Lemma run_sqlite_Ok (w w' : world) (res : list (string * float)) :
  run SQLite w = (Ok res, w') -> measured (fun l => l) w res w'.
Proof.
  intros Hrun. pose proof (step_refl w) as Hacc.
  unfold run, run_sqlite in Hrun; cbv zeta in Hrun.
  chain Hacc Hrun. finish_measured Hacc Hrun.
  rewrite Ho. reflexivity.
Qed.

Lemma run_tinydb_Ok (w w' : world) (res : list (string * float)) :
  run TinyDB w = (Ok res, w') -> measured (fun l => TinyDB :: l) w res w'.
Proof.
  intros Hrun. pose proof (step_refl w) as Hacc.
  unfold run, run_tinydb in Hrun; cbv zeta in Hrun.
  chain Hacc Hrun. finish_measured Hacc Hrun.
  by rewrite Ho.
Qed.

(** The two guarded backends either skip, when a statement under [try:]
    raised, or go on like the others. *)
Lemma run_mysql_Ok (w w' : world) (res : list (string * float)) :
  run MySQL w = (Ok res, w') ->
  (res = [] /\ step [] (fun l => l) w w' /\ exists e, fst (mysql_connect w) = Raise e)
  \/ measured (fun l => l) w res w'.
Proof.
  intros Hrun. pose proof (step_refl w) as Hacc.
  unfold run, run_mysql in Hrun; cbv zeta in Hrun.
  apply bind_Ok in Hrun as (connected & w0 & Htry & Hrun).
  apply try_Ok in Htry as [Hbody | (e & w1 & Hbody & Hexc & Hh)].
  - right.
    apply bind_Ok in Hbody as ([] & w1 & Hc & Hret). injection Hret as <- <-.
    unfold mysql_connect in Hc.
    apply bind_Ok in Hc as (a & w2 & Hc & Hret). injection Hret as <-.
    apply step_ext in Hc. cbn [negb] in Hrun.
    chain Hc Hrun. finish_measured Hc Hrun.
    rewrite Ho. reflexivity.
  - left.
    apply bind_Ok in Hh as ([] & w2 & Hp & Hret). injection Hret as <- <-.
    cbn [negb] in Hrun. injection Hrun as <- <-.
    split; [done|]. split.
    + apply bind_Raise in Hbody as [Hb | (a & w3 & _ & Hb)]; [|discriminate].
      unfold mysql_connect in Hb.
      apply bind_Raise in Hb as [Hb | (a & w3 & _ & Hb)]; [|discriminate].
      apply step_ext_Raise in Hb as [Hb _].
      eapply step_quiet in Hp; [| solve_keeps | solve_keeps].
      exact (step_trans _ _ _ _ _ _ _ Hb Hp).
    + rewrite bind_unfold in Hbody.
      destruct (mysql_connect w) as [[[]|e'] w3]; [discriminate|]. eauto.
Qed.

Lemma run_mongodb_Ok (w w' : world) (res : list (string * float)) :
  run MongoDB w = (Ok res, w') ->
  (res = [] /\ untimed w w' /\ exists e, fst (mongodb_connect w) = Raise e)
  \/ measured (fun l => MongoDB :: l) w res w'.
Proof.
  intros Hrun. pose proof (step_refl w) as Hacc.
  unfold run, run_mongodb in Hrun; cbv zeta in Hrun.
  apply bind_Ok in Hrun as (connected & w0 & Htry & Hrun).
  apply try_Ok in Htry as [Hbody | (e & w1 & Hbody & Hexc & Hh)].
  - right.
    apply bind_Ok in Hbody as ([] & w1 & Hc & Hret). injection Hret as <- <-.
    unfold mongodb_connect in Hc.
    apply bind_Ok in Hc as (a & w2 & Hc & Hg).
    apply step_ext in Hc.
    eapply step_quiet in Hg; [| solve_keeps | solve_keeps].
    pose proof (step_trans _ _ _ _ _ _ _ Hc Hg) as Hcg. clear Hc Hg.
    cbn [negb] in Hrun.
    chain Hcg Hrun. finish_measured Hcg Hrun.
    rewrite Ho. reflexivity.
  - left.
    apply bind_Ok in Hh as ([] & w2 & Hp & Hret). injection Hret as <- <-.
    cbn [negb] in Hrun. injection Hrun as <- <-.
    split; [done|]. split.
    + assert (Hu : keeps untimed (mongodb_connect ≫= fun _ => mret true))
        by solve_keeps.
      pose proof (keeps_at _ _ _ _ _ Hu Hbody) as H1.
      pose proof (keeps_at _ _ _ _ _ (untimed_print _) Hp) as H2.
      by etrans.
    + rewrite bind_unfold in Hbody.
      destruct (mongodb_connect w) as [[[]|e'] w3]; [discriminate|]. eauto.
Qed.

Lemma rising_flat_lookup (lo hi : Z) (ws : list (Z * Z)) (j : nat) (s e : Z) :
  rising lo (flat ws) hi -> ws !! j = Some (s, e) -> lo <= s /\ s <= e /\ e <= hi.
Proof.
  revert lo j; induction ws as [|[s0 e0] ws IH]; intros lo j; [done|].
  simpl. intros (H1 & H2 & H3) Hj. destruct j as [|j]; simpl in Hj.
  - injection Hj as -> ->. apply rising_le in H3. lia.
  - destruct (IH _ _ H3 Hj) as (? & ? & ?). lia.
Qed.

(** Windows timed one after the other are pairwise disjoint and in order. *)
Lemma rising_flat_ordered (lo hi : Z) (ws : list (Z * Z)) (i j : nat)
    (s e s' e' : Z) :
  rising lo (flat ws) hi -> (i < j)%nat ->
  ws !! i = Some (s, e) -> ws !! j = Some (s', e') ->
  s <= e /\ e <= s' /\ s' <= e'.
Proof.
  revert lo i j; induction ws as [|[s0 e0] ws IH]; intros lo i j; [done|].
  simpl. intros (H1 & H2 & H3) Hij Hi Hj.
  destruct j as [|j]; [lia|]. simpl in Hj. destruct i as [|i]; simpl in Hi.
  - injection Hi as -> ->.
    destruct (rising_flat_lookup _ _ _ _ _ _ H3 Hj) as (? & ? & ?). lia.
  - apply (IH e0 i j); [done | lia | done | done].
Qed.

(** *** Each window around its operation *)

Global Instance extends_preorder : PreOrder extends.
Proof.
  split.
  - intros w. by exists [].
  - intros w1 w2 w3 (t1 & H1) (t2 & H2). exists (t2 ++ t1).
    by rewrite H2, H1, app_assoc.
Qed.

Lemma extends_print (line : string) : keeps extends (print line).
Proof. intros w. by exists [EvPrint line]. Qed.

Lemma extends_perf_counter : keeps extends perf_counter.
Proof. intros w. by eexists [_]. Qed.

Lemma extends_ext (c : call) : keeps extends (ext c).
Proof.
  intros w. unfold ext. destruct (raised (driver c w)); by eexists [_].
Qed.

Lemma extends_ext_ref (c : dict -> call) (l : shared) (i : nat) :
  keeps extends (ext_ref c l i).
Proof.
  intros w. unfold ext_ref. destruct (items l w !! i) as [u|]; [|by exists []].
  destruct (raised (driver (c u) w)), l; by eexists [_].
Qed.

Ltac extends_step :=
  first
    [ keeps_step
    | lazymatch goal with
      | |- keeps extends (print ?l) => apply (extends_print l)
      | |- keeps extends perf_counter => apply extends_perf_counter
      | |- keeps extends (ext ?c) => apply (extends_ext c)
      | |- keeps extends (ext_ref ?c ?l ?i) => apply (extends_ext_ref c l i)
      end ].

Ltac solve_extends := unfold_harness; repeat extends_step.

(** What a clock read returns, records and leaves. *)
Lemma perf_counter_reads (w : world) :
  exists w1,
    perf_counter w = (Ok (seconds (w_clock w1)), w1)
    /\ readings w1 = readings w ++ [w_clock w1]
    /\ w_clock w <= w_clock w1
    /\ w_open w1 = w_open w
    /\ extends w w1.
Proof.
  exists (snd (perf_counter w)). split; [reflexivity|]. split; [reflexivity|].
  split; [cbn; lia|]. split; [reflexivity|]. by eexists [_].
Qed.

Lemma window_extends (func : M unit) (s e : Z) (wa wb wc : world) :
  window func s e wa wb -> extends wb wc -> window func s e wa wc.
Proof.
  intros (w1 & w2 & w3 & H1 & H2 & H3 & H4 & H5 & H6 & H7) Hbc.
  exists w1, w2, w3. repeat (split; [assumption|]). by etrans.
Qed.

(** [measure] reads the clock right before and right after the function it
    is handed, and records the difference of these two readings. *)
Lemma measure_window (bench bench' : Benchmark) (name : string) (func : M unit)
    (w w' : world) :
  keeps untimed func -> keeps same_open func ->
  measure bench name func w = (Ok bench', w') ->
  exists s e,
    step [(s, e)] (fun l => l) w w'
    /\ bench' = mkBenchmark (db_name bench)
                  (dict_set (results bench) name (duration_ms (seconds s) (seconds e)))
    /\ window func s e w w'.
Proof.
  intros Hu Ho Heq. unfold measure in Heq.
  destruct (perf_counter_reads w) as (w1 & P1 & R1 & C1 & O1 & E1).
  rewrite (bind_Ok_eq _ _ _ _ _ P1) in Heq.
  apply bind_Ok in Heq as ([] & w2 & H2 & Heq).
  destruct (perf_counter_reads w2) as (w3 & P3 & R3 & C3 & O3 & E3).
  rewrite (bind_Ok_eq _ _ _ _ _ P3) in Heq. cbv zeta in Heq.
  rewrite (bind_Ok_eq (print _) _ _ _ tt eq_refl) in Heq.
  injection Heq as <- <-.
  destruct (keeps_at _ _ _ _ _ Hu H2) as [Hr Hc].
  pose proof (keeps_at _ _ _ _ _ Ho H2) as Hopen. unfold same_open in Hopen.
  exists (w_clock w1), (w_clock w3). split; [|split; [reflexivity|]].
  - split; [|split].
    + transitivity (readings w3); [reflexivity|].
      rewrite R3, Hr, R1, <- app_assoc. reflexivity.
    + cbn. lia.
    + transitivity (w_open w3); [reflexivity|]. congruence.
  - exists w1, w2, w3. repeat (split; [assumption|]).
    by eexists [_].
Qed.

Ltac wstep_of Hm :=
  lazymatch type of Hm with
  | measure _ _ _ _ = _ =>
      let s := fresh "s" in
      let e := fresh "e" in
      let W := fresh "W" in
      apply measure_window in Hm as (s & e & Hm & -> & W); [| solve_keeps | solve_keeps]
  | ext (Connect _ _) _ = _ => apply step_ext in Hm
  | ext (Close _) _ = _ => apply step_ext in Hm
  | _ => eapply step_quiet in Hm; [| solve_keeps | solve_keeps]
  end.

(** As [chain], and keeps for every statement that the history was continued
    and for every [measure] its window. *)
Ltac wchain Hacc H :=
  repeat (let a := fresh "a" in
          let wj := fresh "w" in
          let Hm := fresh "Hm" in
          let Hacc' := fresh "Hacc" in
          let E := fresh "E" in
          apply bind_Ok in H as (a & wj & Hm & H);
          lazymatch type of Hm with
          | ?m ?wi = _ =>
              assert (E : extends wi wj)
                by (apply (keeps_at extends m wi wj _ ltac:(solve_extends) Hm))
          end;
          wstep_of Hm;
          cbn [db_name results] in H;
          pose proof (step_trans _ _ _ _ _ _ _ Hacc Hm) as Hacc';
          clear Hacc Hm; rename Hacc' into Hacc).

Ltac ext_path :=
  solve [ repeat first [ reflexivity | (etrans; [eassumption|]) ] ].

Ltac solve_windows :=
  let i := fresh "i" in
  let Hop := fresh "Hop" in
  let Hws := fresh "Hws" in
  intros i ? ? ? ? Hop Hws;
  do 6 (destruct i as [|i];
        [ simpl in Hop, Hws; injection Hop as <- <-; injection Hws as <- <-;
          match goal with
          | W : window ?f ?s ?e ?wa ?wb |- exists wa', extends _ wa' /\ window ?f ?s ?e wa' ?wc =>
              exists wa; split; [ext_path | apply (window_extends f s e wa wb wc W); ext_path]
          end
        | ]);
  discriminate Hop.

Lemma run_sqlite_timed (w w' : world) (res : list (string * float)) :
  run SQLite w = (Ok res, w') -> timed SQLite (fun l => l) w res w'.
Proof.
  intros Hrun. pose proof (step_refl w) as Hacc.
  unfold run, run_sqlite in Hrun; cbv zeta in Hrun.
  wchain Hacc Hrun. injection Hrun as <- <-.
  destruct Hacc as (Hr & Hc & Ho).
  eexists. split; [|split; [|split]].
  2: { split; [exact Hr | split; [exact Hc | rewrite Ho; reflexivity]]. }
  - reflexivity.
  - reflexivity.
  - solve_windows.
Qed.

Lemma run_tinydb_timed (w w' : world) (res : list (string * float)) :
  run TinyDB w = (Ok res, w') -> timed TinyDB (fun l => TinyDB :: l) w res w'.
Proof.
  intros Hrun. pose proof (step_refl w) as Hacc.
  unfold run, run_tinydb in Hrun; cbv zeta in Hrun.
  wchain Hacc Hrun. injection Hrun as <- <-.
  destruct Hacc as (Hr & Hc & Ho).
  eexists. split; [|split; [|split]].
  2: { split; [exact Hr | split; [exact Hc | by rewrite Ho]]. }
  - reflexivity.
  - reflexivity.
  - solve_windows.
Qed.

Lemma run_mysql_timed (w w' : world) (res : list (string * float)) :
  run MySQL w = (Ok res, w') ->
  (res = [] /\ readings w' = readings w
   /\ exists e, fst (connect_step MySQL w) = Raise e /\ is_exception e = true)
  \/ timed MySQL (fun l => l) w res w'.
Proof.
  intros Hrun.
  unfold run, run_mysql in Hrun; cbv zeta in Hrun.
  apply bind_Ok in Hrun as (connected & w0 & Htry & Hrun).
  apply try_Ok in Htry as [Hbody | (e & w1 & Hbody & Hexc & Hh)].
  - right.
    apply bind_Ok in Hbody as ([] & w1 & Hc & Hret). injection Hret as <- <-.
    assert (E0 : extends w w1)
      by (apply (keeps_at extends mysql_connect w w1 _ ltac:(solve_extends) Hc)).
    unfold mysql_connect in Hc.
    apply bind_Ok in Hc as (a & w2 & Hc & Hret). injection Hret as <-.
    apply step_ext in Hc. cbn [negb] in Hrun.
    wchain Hc Hrun. injection Hrun as <- <-.
    destruct Hc as (Hr & Hc & Ho).
    eexists. split; [|split; [|split]].
    2: { split; [exact Hr | split; [exact Hc | rewrite Ho; reflexivity]]. }
    + reflexivity.
    + reflexivity.
    + solve_windows.
  - left.
    apply bind_Ok in Hh as ([] & w2 & Hp & Hret). injection Hret as <- <-.
    cbn [negb] in Hrun. injection Hrun as <- <-.
    split; [done|]. split.
    + assert (Hu : keeps untimed (mysql_connect ≫= fun _ => mret true))
        by solve_keeps.
      destruct (keeps_at _ _ _ _ _ Hu Hbody) as [H1 _].
      destruct (keeps_at _ _ _ _ _ (untimed_print _) Hp) as [H2 _].
      congruence.
    + exists e. split; [|exact Hexc]. unfold connect_step.
      rewrite bind_unfold in Hbody.
      destruct (mysql_connect w) as [[[]|e'] w3]; [discriminate|].
      by injection Hbody as -> _.
Qed.

Lemma run_mongodb_timed (w w' : world) (res : list (string * float)) :
  run MongoDB w = (Ok res, w') ->
  (res = [] /\ readings w' = readings w
   /\ exists e, fst (connect_step MongoDB w) = Raise e /\ is_exception e = true)
  \/ timed MongoDB (fun l => MongoDB :: l) w res w'.
Proof.
  intros Hrun.
  unfold run, run_mongodb in Hrun; cbv zeta in Hrun.
  apply bind_Ok in Hrun as (connected & w0 & Htry & Hrun).
  apply try_Ok in Htry as [Hbody | (e & w1 & Hbody & Hexc & Hh)].
  - right.
    apply bind_Ok in Hbody as ([] & w1 & Hc & Hret). injection Hret as <- <-.
    assert (E0 : extends w w1)
      by (apply (keeps_at extends mongodb_connect w w1 _ ltac:(solve_extends) Hc)).
    unfold mongodb_connect in Hc.
    apply bind_Ok in Hc as (a & w2 & Hc & Hg).
    apply step_ext in Hc.
    eapply step_quiet in Hg; [| solve_keeps | solve_keeps].
    pose proof (step_trans _ _ _ _ _ _ _ Hc Hg) as Hcg. clear Hc Hg.
    cbn [negb] in Hrun.
    wchain Hcg Hrun. injection Hrun as <- <-.
    destruct Hcg as (Hr & Hc & Ho).
    eexists. split; [|split; [|split]].
    2: { split; [exact Hr | split; [exact Hc | rewrite Ho; reflexivity]]. }
    + reflexivity.
    + reflexivity.
    + solve_windows.
  - left.
    apply bind_Ok in Hh as ([] & w2 & Hp & Hret). injection Hret as <- <-.
    cbn [negb] in Hrun. injection Hrun as <- <-.
    split; [done|]. split.
    + assert (Hu : keeps untimed (mongodb_connect ≫= fun _ => mret true))
        by solve_keeps.
      destruct (keeps_at _ _ _ _ _ Hu Hbody) as [H1 _].
      destruct (keeps_at _ _ _ _ _ (untimed_print _) Hp) as [H2 _].
      congruence.
    + exists e. split; [|exact Hexc]. unfold connect_step.
      rewrite bind_unfold in Hbody.
      destruct (mongodb_connect w) as [[[]|e'] w3]; [discriminate|].
      by injection Hbody as -> _.
Qed.

Lemma timings_lookup (b : backend) (ws : list (Z * Z)) (i : nat)
    (name : string) (func : M unit) (s e : Z) :
  ops b !! i = Some (name, func) -> ws !! i = Some (s, e) ->
  timings ws !! i = Some (name, duration_ms (seconds s) (seconds e)).
Proof.
  intros Hop Hws. unfold timings.
  assert (Hn : operations !! i = Some name).
  { destruct b; do 6 (destruct i as [|i]; [by injection Hop as <- _|]);
      discriminate Hop. }
  rewrite lookup_zip_with, Hn, Hws. reflexivity.
Qed.

(** C5. In a run of any backend, whatever its outcome, the clock readings
    it adds never decrease.  When the run returns, either it skipped, which
    only MySQL and MongoDB do and only after their guarded step raised an
    instance of [Exception]: the mapping is empty and no reading was added.
    Or it timed six windows [(start, end)], one per operation: the readings
    added are these six pairs in order, every window ends no later than any
    later one starts, the mapping returned gives to the [i]-th operation name
    the duration of the [i]-th window, and the [i]-th window encloses exactly
    one execution of the function that the script measures under that name:
    the clock is read, the function runs from the state that this leaves and
    reads no clock, and the clock is read again in the state the function
    left. *)
Theorem windows_disjoint (b : backend) (w : world) :
  (exists rs, readings (snd (run b w)) = readings w ++ rs
              /\ rising (w_clock w) rs (w_clock (snd (run b w))))
  /\ forall res w', run b w = (Ok res, w') ->
       (res = []
        /\ (b = MySQL \/ b = MongoDB)
        /\ (exists e, fst (connect_step b w) = Raise e /\ is_exception e = true)
        /\ readings w' = readings w)
       \/ exists ws,
            length ws = 6%nat
            /\ readings w' = readings w ++ flat ws
            /\ (forall i j s e s' e', (i < j)%nat ->
                  ws !! i = Some (s, e) -> ws !! j = Some (s', e') ->
                  s <= e /\ e <= s' /\ s' <= e')
            /\ (forall i s e, ws !! i = Some (s, e) ->
                  w_clock w <= s /\ s <= e /\ e <= w_clock w')
            /\ res = zip_with
                       (fun name se => (name, duration_ms (seconds se.1) (seconds se.2)))
                       ["Create"; "Read-1 Point"; "Read-2 Range";
                        "Read-3 UserOrders"; "Update"; "Delete"] ws
            /\ (forall i name func s e,
                  ops b !! i = Some (name, func) -> ws !! i = Some (s, e) ->
                  res !! i = Some (name, duration_ms (seconds s) (seconds e))
                  /\ exists wa, extends w wa /\ window func s e wa w').
Proof.
  split; [apply (later_run b w)|].
  intros res w' Hrun.
  assert (Hm : (res = []
                /\ (b = MySQL \/ b = MongoDB)
                /\ (exists e, fst (connect_step b w) = Raise e /\ is_exception e = true)
                /\ readings w' = readings w)
               \/ exists f, timed b f w res w').
  { destruct b.
    - right. eexists. by apply run_sqlite_timed.
    - destruct (run_mysql_timed _ _ _ Hrun) as [(-> & Hr & He)|Hm].
      + left. auto.
      + right. eauto.
    - destruct (run_mongodb_timed _ _ _ Hrun) as [(-> & Hr & He)|Hm].
      + left. auto.
      + right. eauto.
    - right. eexists. by apply run_tinydb_timed. }
  destruct Hm as [Hm | (f & ws & Hlen & (Hr & Hc & _) & -> & Hwin)]; [by left | right].
  exists ws. split; [done|]. split; [done|].
  split; [|split; [|split; [reflexivity|]]].
  - intros i j s e s' e'. by apply rising_flat_ordered with (lo := w_clock w) (hi := w_clock w').
  - intros i s e. by apply rising_flat_lookup.
  - intros i name func s e Hop Hws. split.
    + by apply (timings_lookup b ws i name func).
    + by apply (Hwin i name func).
Qed.

(** *** Runs in an environment where only guarded calls raise *)

Lemma on_data_generated : on_data generated_data.
Proof. intros w w' [H1 H2] [H3 H4]. split; congruence. Qed.

Lemma on_data_anything : on_data anything.
Proof. done. Qed.

Lemma returns_ret (P : world -> Prop) {A} (a : A) : returns P (mret a : M A) P.
Proof. intros w HP. eauto. Qed.

Lemma returns_read (P : world -> Prop) {A} (f : world -> A) : returns P (read f) P.
Proof. intros w HP. unfold read. eauto. Qed.

Lemma returns_bind (P Q R : world -> Prop) {A B} (m : M A) (k : A -> M B) :
  returns P m Q -> (forall a, returns Q (k a) R) -> returns P (m ≫= k) R.
Proof.
  intros Hm Hk w HP. destruct (Hm w HP) as (a & w1 & Heq & HQ).
  rewrite bind_unfold, Heq. apply Hk, HQ.
Qed.

Lemma returns_weaken (P P' Q Q' : world -> Prop) {A} (m : M A) :
  returns P m Q -> (forall w, P' w -> P w) -> (forall w, Q w -> Q' w) ->
  returns P' m Q'.
Proof.
  intros Hm H1 H2 w HP. destruct (Hm w (H1 w HP)) as (a & w1 & Heq & HQ). eauto.
Qed.

Lemma returns_for (P : world -> Prop) {B} (l : list B) (body : B -> M unit) :
  (forall x, returns P (body x) P) -> returns P (for_ l body) P.
Proof.
  intros Hbody. induction l as [|x l IH].
  - apply (returns_ret P tt).
  - apply (returns_bind P P P (body x) (fun _ => for_ l body)); [apply Hbody | intros _; exact IH].
Qed.

Lemma returns_for_each (P : world -> Prop) (l : shared) (body : nat -> dict -> M unit) :
  (forall i u w, P w -> items l w !! i = Some u ->
     exists a w', body i u w = (Ok a, w') /\ P w') ->
  returns P (for_each l body) P.
Proof.
  intros Hbody w HP. unfold for_each.
  apply (returns_for P (seq 0 (length (items l w)))
           (fun i w' => match items l w' !! i with
                        | Some u => body i u w'
                        | None => (Ok tt, w')
                        end)); [|exact HP].
  intros i w1 HP1. simpl. destruct (items l w1 !! i) as [u|] eqn:Hu; [eauto | eauto].
Qed.

(** A call made by value returns when the environment does not make it raise. *)
Lemma returns_ext (P : world -> Prop) (c : call) :
  only_guarded -> on_data P -> guarded c = false -> returns P (ext c) P.
Proof.
  intros Henv HPd Hc w HP.
  pose proof (keeps_at _ _ _ _ _ (same_data_ext c) (surjective_pairing (ext c w))) as Hd.
  unfold ext in *. destruct (raised (driver c w)) as [msg|] eqn:Hr.
  - destruct (Henv c w msg Hr) as [Hg _]. congruence.
  - eexists _, _. split; [reflexivity|]. by apply (HPd w).
Qed.

Lemma returns_print (P : world -> Prop) (line : string) :
  on_data P -> returns P (print line) P.
Proof.
  intros HPd w HP. eexists _, _. split; [reflexivity|].
  apply (HPd w); [|done]. split; reflexivity.
Qed.

Lemma returns_perf_counter (P : world -> Prop) :
  on_data P -> returns P perf_counter P.
Proof.
  intros HPd w HP. eexists _, _. split; [reflexivity|].
  apply (HPd w); [|done]. split; reflexivity.
Qed.

Lemma returns_getitem (P : world -> Prop) (u : dict) (key : string) (v : pyval) :
  dict_get u key = Some v -> returns P (getitem u key) P.
Proof. intros Hv w HP. unfold getitem. rewrite Hv. eauto. Qed.

Lemma returns_ext_ref (c : dict -> call) (l : shared) (i : nat) (u : dict) (w : world) :
  only_guarded -> (forall u, guarded (c u) = false) -> items l w !! i = Some u ->
  exists a w', ext_ref c l i w = (Ok a, w').
Proof.
  intros Henv Hc Hu. unfold ext_ref. rewrite Hu.
  destruct (raised (driver (c u) w)) as [msg|] eqn:Hr; [|eauto].
  destruct (Henv (c u) w msg Hr) as [Hg _].
  rewrite Hc in Hg. discriminate.
Qed.

Ltac returns_step Henv HPd :=
  lazymatch goal with
  | |- returns ?P (mret ?a) _ => apply (returns_ret P a)
  | |- returns ?P (read ?f) _ => apply (returns_read P f)
  | |- returns ?P (getitem ?u ?k) _ => eapply (returns_getitem P u k); reflexivity
  | |- returns ?P (?m ≫= ?k) _ => apply (returns_bind P P P m k); [|intros ?]
  | |- returns ?P (for_ ?l ?f) _ => apply (returns_for P l f); intros ?
  | |- returns _ (if ?b then _ else _) _ => destruct b
  | |- returns ?P (print ?l) _ => apply (returns_print P l HPd)
  | |- returns ?P perf_counter _ => apply (returns_perf_counter P HPd)
  | |- returns ?P (ext ?c) _ =>
      apply (returns_ext P c Henv HPd); first [reflexivity | solve [auto]]
  end.

Ltac unfold_ops :=
  unfold sqlite_read_point, sqlite_read_range,
    sqlite_read_user_orders, sqlite_update_op, sqlite_delete_op,
    mysql_read_point, mysql_read_range,
    mysql_read_user_orders, mysql_update_op, mysql_delete_op,
    mongodb_read_point, mongodb_read_range,
    mongodb_read_user_orders, mongodb_update_op, mongodb_delete_op,
    tinydb_read_point, tinydb_read_range,
    tinydb_read_user_orders, tinydb_update_op, tinydb_delete_op,
    measure, execute, method, user_params, order_params;
  cbv zeta.

Lemma generated_user (w : world) (i : nat) (u : dict) :
  generated_data w -> users_data w !! i = Some u -> exists k, u = user_record k.
Proof.
  intros [Hu _] Hi. rewrite Hu in Hi.
  change (map user_record ?l) with (user_record <$> l) in Hi.
  rewrite list_lookup_fmap in Hi.
  destruct (range 1 5001 !! i) as [k|]; simpl in Hi; [|done].
  exists k. congruence.
Qed.

Lemma generated_order (w : world) (i : nat) (o : dict) :
  generated_data w -> orders_data w !! i = Some o ->
  exists k uid x st, o = order_record k uid x st.
Proof.
  intros [_ Ho] Hi. rewrite Ho in Hi.
  assert (Hall : Forall (fun o => exists k uid x st, o = order_record k uid x st)
                   (fst generated_orders)).
  { apply draw_orders_Forall. intros k s.
    destruct (draw_order_fields k s) as (uid & x & st & -> & _). eauto. }
  rewrite Forall_lookup in Hall. by apply (Hall i).
Qed.

(** The two [INSERT] loops of the SQL backends go through on generated data. *)
Lemma returns_sql_insert (b : backend) (sql_users sql_orders : string) :
  only_guarded ->
  (forall name args, guarded (Method b name args) = false) ->
  returns generated_data
    (for_each Users (fun _ u => p ← user_params u; execute b sql_users p);;
     for_each Orders (fun _ o => p ← order_params o; execute b sql_orders p);;
     method b "commit" [])
    generated_data.
Proof.
  intros Henv Hg. pose proof on_data_generated as HPd.
  apply (returns_bind generated_data generated_data generated_data); [|intros _].
  - apply returns_for_each. intros i u w HP Hu.
    destruct (generated_user w i u HP Hu) as (k & ->).
    assert (Hr : returns generated_data
                   (p ← user_params (user_record k); execute b sql_users p)
                   generated_data); [|exact (Hr w HP)].
    unfold_ops. repeat returns_step Henv HPd.
  - apply (returns_bind generated_data generated_data generated_data); [|intros _].
    + apply returns_for_each. intros i o w HP Ho.
      destruct (generated_order w i o HP Ho) as (k & uid & x & st & ->).
      assert (Hr : returns generated_data
                     (p ← order_params (order_record k uid x st); execute b sql_orders p)
                     generated_data); [|exact (Hr w HP)].
      unfold_ops. repeat returns_step Henv HPd.
    + unfold_ops. repeat returns_step Henv HPd.
Qed.

Lemma returns_mongodb_insert :
  only_guarded ->
  returns generated_data (mongodb_insert_data Users Orders) generated_data.
Proof.
  intros Henv. pose proof on_data_generated as HPd. unfold mongodb_insert_data.
  apply (returns_bind generated_data generated_data generated_data); [|intros _].
  - apply returns_for_each. intros i u w HP Hu.
    assert (Hr : returns generated_data
                   (method MongoDB "users.insert_one" [VDict (dict_copy u)])
                   generated_data); [|exact (Hr w HP)].
    unfold_ops. repeat returns_step Henv HPd.
  - apply returns_for_each. intros i u w HP Hu.
    assert (Hr : returns generated_data
                   (method MongoDB "orders.insert_one" [VDict (dict_copy u)])
                   generated_data); [|exact (Hr w HP)].
    unfold_ops. repeat returns_step Henv HPd.
Qed.

Lemma returns_tinydb_insert :
  only_guarded ->
  returns anything (tinydb_insert_data Users Orders) anything.
Proof.
  intros Henv. unfold tinydb_insert_data.
  apply (returns_bind anything anything anything); [|intros _].
  - apply returns_for_each. intros i u w HP Hu.
    destruct (returns_ext_ref (fun u => Method TinyDB "users.insert" [VDict u])
                Users i u w Henv ltac:(done) Hu) as (a & w' & Heq).
    rewrite bind_unfold, Heq. by eexists _, _.
  - apply returns_for_each. intros i u w HP Hu.
    destruct (returns_ext_ref (fun u => Method TinyDB "orders.insert" [VDict u])
                Orders i u w Henv ltac:(done) Hu) as (a & w' & Heq).
    rewrite bind_unfold, Heq. by eexists _, _.
Qed.

Lemma ordinary_ret {A} (a : A) : ordinary (mret a : M A).
Proof. intros w e w' Heq. discriminate. Qed.

Lemma ordinary_ext (c : call) : only_guarded -> ordinary (ext c).
Proof.
  intros Henv w e w' Heq. unfold ext in Heq.
  destruct (raised (driver c w)) as [e'|] eqn:Hr; [|discriminate].
  injection Heq as <- _. by destruct (Henv c w e' Hr).
Qed.

Lemma ordinary_bind {A B} (m : M A) (k : A -> M B) :
  ordinary m -> (forall a, ordinary (k a)) -> ordinary (m ≫= k).
Proof.
  intros Hm Hk w e w' Heq. rewrite bind_unfold in Heq.
  destruct (m w) as [[a|e'] w1] eqn:Hmw.
  - by apply (Hk a w1 e w').
  - injection Heq as <- _. by apply (Hm w e' w1).
Qed.

Ltac solve_ordinary Henv :=
  unfold mysql_connect, mongodb_connect, method;
  repeat first
    [ apply ordinary_bind; [|intros ?]
    | apply ordinary_ret
    | apply (ordinary_ext _ Henv) ].

(** A guarded block: when the statements under [try:] raise an instance of
    [Exception], the handler takes over. *)
Lemma returns_try (P : world -> Prop) {A} (body : M A) (handler : exn -> M A) :
  on_data P -> keeps same_data body -> ordinary body ->
  (forall e, returns P (handler e) P) ->
  returns P (try_except body handler) P.
Proof.
  intros HPd Hbody Hord Hh w HP. unfold try_except.
  pose proof (Hbody w) as Hd. destruct (body w) as [[a|e] w1] eqn:Hb; simpl in Hd.
  - eexists _, _. split; [reflexivity|]. by apply (HPd w).
  - rewrite (Hord w e w1 Hb). apply Hh. by apply (HPd w).
Qed.

Ltac returns_run Henv HPd :=
  unfold run, run_sqlite, run_mysql, run_mongodb, run_tinydb; unfold_ops;
  repeat first
    [ returns_step Henv HPd
    | apply (returns_sql_insert SQLite _ _ Henv); intros ? ?; reflexivity
    | apply (returns_sql_insert MySQL _ _ Henv); intros ? ?; reflexivity
    | apply (returns_mongodb_insert Henv)
    | apply (returns_tinydb_insert Henv)
    | apply (returns_try _ _ _ HPd); [solve_keeps | solve_ordinary Henv | intros ?] ].

Lemma returns_run (b : backend) :
  only_guarded -> b <> TinyDB -> returns generated_data (run b) generated_data.
Proof.
  intros Henv Hb. pose proof on_data_generated as HPd.
  destruct b; [| | |done]; returns_run Henv HPd.
Qed.

Lemma returns_run_tinydb : only_guarded -> returns anything (run TinyDB) anything.
Proof.
  intros Henv. pose proof on_data_anything as HPd. returns_run Henv HPd.
Qed.

Lemma timings_names (ws : list (Z * Z)) :
  length ws = 6%nat -> map fst (timings ws) = operations.
Proof.
  intros Hlen. do 7 (destruct ws as [|[? ?] ws]; try discriminate). reflexivity.
Qed.

(** Where only guarded calls raise, every backend returns: the empty mapping
    when its statements under [try:] raised, the six operations otherwise. *)
Lemma run_progress (b : backend) (w : world) :
  only_guarded -> generated_data w ->
  exists res w',
    run b w = (Ok res, w')
    /\ (b <> TinyDB -> generated_data w')
    /\ result_of b w res.
Proof.
  intros Henv HP.
  assert (Hret : exists res w', run b w = (Ok res, w')
                                /\ (b <> TinyDB -> generated_data w')).
  { destruct (decide (b = TinyDB)) as [->|Hb].
    - destruct (returns_run_tinydb Henv w I) as (res & w' & Heq & _).
      exists res, w'. split; [done | congruence].
    - destruct (returns_run b Henv Hb w HP) as (res & w' & Heq & HP').
      exists res, w'. auto. }
  destruct Hret as (res & w' & Heq & HP'). exists res, w'.
  split; [done|]. split; [done|]. unfold result_of.
  destruct b.
  - right. destruct (run_sqlite_Ok _ _ _ Heq) as (ws & Hlen & _ & ->).
    by apply timings_names.
  - destruct (run_mysql_timed _ _ _ Heq) as [(-> & _ & He)|(ws & Hlen & _ & -> & _)].
    + left. auto.
    + right. by apply timings_names.
  - destruct (run_mongodb_timed _ _ _ Heq) as [(-> & _ & He)|(ws & Hlen & _ & -> & _)].
    + left. auto.
    + right. by apply timings_names.
  - right. destruct (run_tinydb_Ok _ _ _ Heq) as (ws & Hlen & _ & ->).
    by apply timings_names.
Qed.

(** *** The entry point *)

Lemma generate_eq (w : world) :
  generate w
  = (Ok tt, set_data (map user_record (range 1 5001)) (fst generated_orders)
              (logged generator_draws (snd generated_orders) w)).
Proof. unfold generate. rewrite bind_unfold, get_dataset_eq. reflexivity. Qed.

Lemma returns_generate : returns anything generate generated_data.
Proof.
  intros w _. rewrite generate_eq. eexists _, _. split; [reflexivity|].
  split; reflexivity.
Qed.

Lemma main_returns : only_guarded -> returns anything main anything.
Proof.
  intros Henv. pose proof on_data_generated as HPd.
  pose proof on_data_anything as HPa.
  unfold main.
  apply (returns_bind anything anything anything);
    [apply (returns_print _ _ HPa) | intros _].
  apply (returns_bind anything generated_data anything);
    [apply returns_generate | intros _].
  apply (returns_bind generated_data generated_data anything);
    [apply returns_read | intros n].
  apply (returns_bind generated_data generated_data anything);
    [apply returns_read | intros m].
  do 3 (apply (returns_bind generated_data generated_data anything);
          [apply (returns_print _ _ HPd) | intros _]).
  apply (returns_bind generated_data generated_data anything);
    [apply (returns_run MySQL Henv); done | intros _].
  apply (returns_bind generated_data generated_data anything);
    [apply (returns_print _ _ HPd) | intros _].
  apply (returns_bind generated_data generated_data anything);
    [apply (returns_run SQLite Henv); done | intros _].
  apply (returns_bind generated_data generated_data anything);
    [apply (returns_print _ _ HPd) | intros _].
  apply (returns_bind generated_data generated_data anything);
    [apply (returns_run MongoDB Henv); done | intros _].
  apply (returns_bind generated_data generated_data anything);
    [apply (returns_print _ _ HPd) | intros _].
  apply (returns_bind generated_data anything anything);
    [|intros _; apply (returns_print _ _ HPa)].
  apply (returns_weaken anything generated_data anything anything);
    [apply (returns_run_tinydb Henv) | done | done].
Qed.


Lemma same_data_runs (bs : list backend) :
  (forall name u, mutate (Method TinyDB name [VDict u]) u = u) ->
  keeps same_data (runs bs).
Proof.
  intros Hmut. unfold runs. apply (keeps_for same_data). intros b.
  apply (keeps_bind same_data (run b) (fun _ => mret tt));
    [|intros ?; apply (keeps_ret same_data tt)].
  destruct (decide (b = TinyDB)) as [->|Hb];
    [by apply same_data_run_tinydb | by apply same_data_run].
Qed.

(** The shared lists are bound once, to what the generator returned. *)
Lemma main_data (w : world) :
  (forall name u, mutate (Method TinyDB name [VDict u]) u = u) ->
  users_data (snd (main w)) = map user_record (range 1 5001)
  /\ orders_data (snd (main w)) = fst generated_orders.
Proof.
  intros Hmut. unfold main.
  rewrite (bind_Ok_eq (print _) _ _ _ _ eq_refl).
  rewrite (bind_Ok_eq generate _ _ _ _ (generate_eq _)).
  lazymatch goal with
  | |- users_data (snd (?m ?w0)) = _ /\ _ =>
      assert (Hk : keeps same_data m) by solve_keeps;
      destruct (Hk w0) as [-> ->]
  end.
  split; reflexivity.
Qed.

(** *** Failures, handles and the shared lists *)




Global Instance calling_preorder (Q : call -> Prop) : PreOrder (calling Q).
Proof.
  split.
  - intros w. exists []. split; [reflexivity | constructor].
  - intros w1 w2 w3 (t1 & H1 & F1) (t2 & H2 & F2). exists (t2 ++ t1).
    split; [by rewrite H2, H1, app_assoc | by apply Forall_app].
Qed.








(** **** A failure that no handler takes ends the computation *)





















(** **** The entry point, backend after backend *)





(** **** Handles *)

Global Instance holds_preorder : PreOrder holds.
Proof.
  split.
  - intros w. by exists [].
  - intros w1 w2 w3 (t1 & H1 & O1) (t2 & H2 & O2). exists (t2 ++ t1).
    split; [by rewrite H2, H1, app_assoc|].
    unfold opened in *. by rewrite omap_app, O2, O1, app_assoc.
Qed.

Lemma holds_print (line : string) : keeps holds (print line).
Proof. intros w. by exists [EvPrint line]. Qed.

Lemma holds_perf_counter : keeps holds perf_counter.
Proof. intros w. by eexists [_]. Qed.

Lemma holds_ext (c : call) : is_close c = false -> keeps holds (ext c).
Proof.
  intros Hc w. unfold ext. destruct (raised (driver c w)) as [e|].
  - exists [EvCall c (Some e)]. split; [reflexivity|]. by destruct c.
  - exists [EvCall c None]. split; [reflexivity|]. by destruct c.
Qed.

Lemma holds_ext_ref (c : dict -> call) (l : shared) (i : nat) :
  (forall u, opened [EvCall (c u) None] = []) -> keeps holds (ext_ref c l i).
Proof.
  intros Hc w. unfold ext_ref. destruct (items l w !! i) as [u|]; [|by exists []].
  cbv zeta. destruct (raised (driver (c u) w)) as [e|].
  - exists [EvCall (c u) (Some e)]. split; [by destruct l|].
    unfold opened. simpl. by destruct (c u), l.
  - exists [EvCall (c u) None]. split; [by destruct l|].
    rewrite Hc. by destruct l.
Qed.

Ltac holds_step :=
  first
    [ keeps_step
    | lazymatch goal with
      | |- keeps holds (print ?l) => apply (holds_print l)
      | |- keeps holds perf_counter => apply holds_perf_counter
      | |- keeps holds (ext ?c) => apply (holds_ext c); reflexivity
      | |- keeps holds (ext_ref ?c ?l ?i) =>
          apply (holds_ext_ref c l i); intros ?; reflexivity
      end ].

Ltac solve_holds := unfold_harness; repeat holds_step.

Lemma unreleased_keeps {A} (m : M A) : keeps holds m -> unreleased m.
Proof. intros Hm w e w' Heq. exact (keeps_at _ _ _ _ _ Hm Heq). Qed.

Lemma unreleased_bind {A B} (m : M A) (k : A -> M B) :
  keeps holds m -> (forall a, unreleased (k a)) -> unreleased (m ≫= k).
Proof.
  intros Hm Hk w e w' Heq. rewrite bind_unfold in Heq.
  destruct (m w) as [[a|e'] w1] eqn:Hmw.
  - etrans; [exact (keeps_at _ _ _ _ _ Hm Hmw) | exact (Hk a w1 e w' Heq)].
  - injection Heq as <- <-. exact (keeps_at _ _ _ _ _ Hm Hmw).
Qed.

(** [conn.close()] is the last call of the run functions that have it: when
    it raises, nothing has been released, and when it returns, so does the
    run. *)
Lemma unreleased_close {A} (b : backend) (a : A) :
  unreleased (ext (Close b) ≫= fun _ => mret a).
Proof.
  intros w e w' Heq. rewrite bind_unfold in Heq. unfold ext in Heq.
  destruct (raised (driver (Close b) w)) as [e'|]; [|discriminate].
  injection Heq as <- <-. by exists [EvCall (Close b) (Some e')].
Qed.

Lemma unreleased_run (b : backend) : unreleased (run b).
Proof.
  destruct b.
  - unfold run, run_sqlite; cbv zeta.
    repeat (apply unreleased_bind; [solve [solve_holds] | intros ?]).
    apply unreleased_close.
  - unfold run, run_mysql; cbv zeta.
    apply unreleased_bind; [solve_holds | intros connected].
    destruct connected; cbn [negb];
      [|apply unreleased_keeps; apply (keeps_ret holds)].
    repeat (apply unreleased_bind; [solve [solve_holds] | intros ?]).
    apply unreleased_close.
  - apply unreleased_keeps. solve_holds.
  - apply unreleased_keeps. solve_holds.
Qed.

(** C8, as the script has it.  When [run_sqlite] or [run_mysql] returns a
    mapping (after the six operations, or after the skip of MySQL), the handles
    held are those held before the call: the connection it opened is closed.
    When the run function of any backend raises, it has released nothing:
    the handles held are those held before the call and, before them, every
    connection that the run opened. *)
Theorem handles_released (b : backend) (w : world) :
  (forall res, b = SQLite \/ b = MySQL ->
     fst (run b w) = Ok res ->
     w_open (snd (run b w)) = w_open w)
  /\ (forall e, fst (run b w) = Raise e ->
        exists t, w_trace (snd (run b w)) = t ++ w_trace w
                  /\ w_open (snd (run b w)) = opened t ++ w_open w).
Proof.
  split.
  - intros res Hb Hres.
    assert (Heq : run b w = (Ok res, snd (run b w))).
    { destruct (run b w) as [r w']; simpl in *. by subst. }
    destruct Hb as [-> | ->].
    + destruct (run_sqlite_Ok _ _ _ Heq) as (ws & _ & (_ & _ & Ho) & _). exact Ho.
    + destruct (run_mysql_Ok _ _ _ Heq) as [(_ & (_ & _ & Ho) & _)|(ws & _ & (_ & _ & Ho) & _)];
        exact Ho.
  - intros e He.
    assert (Heq : run b w = (Raise e, snd (run b w))).
    { destruct (run b w) as [r w']; simpl in *. by subst. }
    exact (unreleased_run b w e _ Heq).
Qed.

(** What the other two backends leave behind: the MongoDB client and the
    TinyDB file are still open when the six operations are done. *)
Lemma handles_left_open (b : backend) (w : world) (res : list (string * float)) :
  b = MongoDB \/ b = TinyDB ->
  fst (run b w) = Ok res -> res <> [] ->
  w_open (snd (run b w)) = b :: w_open w.
Proof.
  intros Hb Hres Hne.
  assert (Heq : run b w = (Ok res, snd (run b w))).
  { destruct (run b w) as [r w']; simpl in *. by subst. }
  destruct Hb as [-> | ->].
  - destruct (run_mongodb_Ok _ _ _ Heq) as [(-> & _)|(ws & _ & (_ & _ & Ho) & _)];
      [done | exact Ho].
  - destruct (run_tinydb_Ok _ _ _ Heq) as (ws & _ & (_ & _ & Ho) & _). exact Ho.
Qed.

(** C9. Given that TinyDB's [insert] does not write to the dictionary it is
    handed, the two shared lists hold exactly what [get_dataset] returned
    after the first [k] backend runs, for every [k], whatever the outcome of
    the runs, and so they do when the entry point is done. *)
Theorem shared_data_unchanged (w : world) (k : nat) :
  (forall name u, mutate (Method TinyDB name [VDict u]) u = u) ->
  fst (get_dataset w)
  = Ok (users_data (snd (runs (take k sequence) (snd (generate w)))),
        orders_data (snd (runs (take k sequence) (snd (generate w)))))
  /\ fst (get_dataset w)
     = Ok (users_data (snd (main w)), orders_data (snd (main w))).
Proof.
  intros Hmut. rewrite get_dataset_eq. cbn [fst].
  destruct (main_data w Hmut) as [-> ->]. split; [|done].
  destruct (same_data_runs (take k sequence) Hmut (snd (generate w))) as [-> ->].
  rewrite generate_eq. reflexivity.
Qed.

(** ** Which calls a run makes *)

Lemma calls_record_call (c : call) (err : option exn) (w : world) :
  calls (record (EvCall c err) w) = calls w ++ [c].
Proof. reflexivity. Qed.

Global Instance only_preorder (P : call -> Prop) : PreOrder (only P).
Proof.
  split.
  - intros w. exists []. split; [by rewrite app_nil_r | constructor].
  - intros w1 w2 w3 (cs1 & H1 & H2) (cs2 & H3 & H4). exists (cs1 ++ cs2).
    split; [by rewrite H3, H1, app_assoc | by apply Forall_app].
Qed.

Lemma only_silent (P : call -> Prop) (w w' : world) :
  calls w' = calls w -> only P w w'.
Proof. intros Heq. exists []. split; [by rewrite app_nil_r | constructor]. Qed.

Lemma only_print (P : call -> Prop) (line : string) : keeps (only P) (print line).
Proof. intros w. by apply only_silent. Qed.

Lemma only_perf_counter (P : call -> Prop) : keeps (only P) perf_counter.
Proof. intros w. by apply only_silent. Qed.

Lemma only_ext (P : call -> Prop) (c : call) : P c -> keeps (only P) (ext c).
Proof.
  intros Hc w. exists [c]. split; [|by repeat constructor].
  unfold ext. destruct (raised (driver c w)); reflexivity.
Qed.

Lemma only_ext_ref (P : call -> Prop) (c : dict -> call) (l : shared) (i : nat) :
  (forall u, P (c u)) -> keeps (only P) (ext_ref c l i).
Proof.
  intros Hc w. unfold ext_ref. destruct (items l w !! i) as [u|]; [|reflexivity].
  exists [c u]. split; [|by repeat constructor].
  destruct (raised (driver (c u) w)), l; reflexivity.
Qed.

Lemma calls_logged ds s (w : world) : calls (logged ds s w) = calls w.
Proof.
  unfold calls, calls_of, logged; cbn [w_trace].
  rewrite omap_app.
  assert (Hnone : forall l, omap (fun ev => match ev with EvCall c _ => Some c | _ => None end)
                    (map EvDraw l) = []).
  { induction l as [|d l IH]; [done | exact IH]. }
  by rewrite Hnone.
Qed.

Lemma calls_set_data (users orders : list dict) (w : world) :
  calls (set_data users orders w) = calls w.
Proof. reflexivity. Qed.

Lemma only_generate (P : call -> Prop) : keeps (only P) generate.
Proof.
  intros w. rewrite generate_eq. cbn [snd]. apply only_silent.
  rewrite calls_set_data. apply calls_logged.
Qed.

Ltac only_step :=
  first
    [ keeps_step
    | lazymatch goal with
      | |- keeps (only ?P) (print ?l) => apply (only_print P l)
      | |- keeps (only ?P) perf_counter => apply (only_perf_counter P)
      | |- keeps (only ?P) generate => apply (only_generate P)
      | |- keeps (only ?P) (ext ?c) => apply (only_ext P c); reflexivity
      | |- keeps (only ?P) (ext_ref ?c ?l ?i) =>
          apply (only_ext_ref P c l i); intros ?; reflexivity
      end ].

Ltac solve_only := unfold_harness; repeat only_step.

(** X9. A backend run, whatever its outcome, calls nothing but the clock, its
    own client library and, for the two file-backed backends, its own file;
    MongoDB and TinyDB are never asked to close. *)
Theorem run_stays_home (b : backend) (w : world) :
  exists cs,
    calls (snd (run b w)) = calls w ++ cs
    /\ Forall (fun c => belongs b c = true) cs.
Proof.
  assert (Hk : keeps (only (fun c => belongs b c = true)) (run b))
    by (destruct b; solve_only).
  exact (Hk w).
Qed.

Lemma keeps_same_phase (R T : relation world) `{!Transitive R} `{!Reflexive T}
    {A B} (m : M A) (k : A -> M B) :
  keeps R m -> (forall a, keeps (and_then R T) (k a)) ->
  keeps (and_then R T) (m ≫= k).
Proof.
  intros Hm Hk w. rewrite bind_unfold. specialize (Hm w).
  destruct (m w) as [[a|e] w1]; simpl in *.
  - destruct (Hk a w1) as (w2 & H1 & H2). exists w2. split; [by etrans | done].
  - exists w1. split; [done | reflexivity].
Qed.

Lemma keeps_next_phase (R T : relation world) `{!Reflexive T}
    {A B} (m : M A) (k : A -> M B) :
  keeps R m -> (forall a, keeps T (k a)) -> keeps (and_then R T) (m ≫= k).
Proof.
  intros Hm Hk w. rewrite bind_unfold. specialize (Hm w).
  destruct (m w) as [[a|e] w1]; simpl in *.
  - exists w1. split; [done | apply Hk].
  - exists w1. split; [done | reflexivity].
Qed.

Global Instance and_then_reflexive (R T : relation world)
    `{!Reflexive R} `{!Reflexive T} : Reflexive (and_then R T).
Proof. intros w. exists w. split; reflexivity. Qed.

(** X10. Whatever happens, the calls of the entry point fall into four
    consecutive blocks, one per backend in the order MySQL, SQLite, MongoDB,
    TinyDB, and each block holds calls of its backend only: no backend is
    called once a later one has started (a block is empty when the run was
    skipped or never reached). *)
Theorem backends_in_turn (w : world) :
  exists cs1 cs2 cs3 cs4,
    calls (snd (main w)) = calls w ++ cs1 ++ cs2 ++ cs3 ++ cs4
    /\ Forall (fun c => belongs MySQL c = true) cs1
    /\ Forall (fun c => belongs SQLite c = true) cs2
    /\ Forall (fun c => belongs MongoDB c = true) cs3
    /\ Forall (fun c => belongs TinyDB c = true) cs4.
Proof.
  pose (P b := fun c => belongs b c = true).
  assert (Hrun : forall b, keeps (only (P b)) (run b))
    by (intros b; destruct b; solve_only).
  assert (Hmain : keeps (and_then (only (P MySQL))
                          (and_then (only (P SQLite))
                             (and_then (only (P MongoDB)) (only (P TinyDB))))) main).
  { pose (T3 := only (P TinyDB)).
    pose (T2 := and_then (only (P MongoDB)) T3).
    pose (T1 := and_then (only (P SQLite)) T2).
    unfold main.
    apply (keeps_same_phase (only (P MySQL)) T1); [apply only_print | intros _].
    apply (keeps_same_phase (only (P MySQL)) T1); [apply only_generate | intros _].
    apply (keeps_same_phase (only (P MySQL)) T1);
      [apply (keeps_read (only (P MySQL))) | intros n].
    apply (keeps_same_phase (only (P MySQL)) T1);
      [apply (keeps_read (only (P MySQL))) | intros m].
    do 3 (apply (keeps_same_phase (only (P MySQL)) T1); [apply only_print | intros _]).
    apply (keeps_next_phase (only (P MySQL)) T1); [apply (Hrun MySQL) | intros _].
    apply (keeps_same_phase (only (P SQLite)) T2); [apply only_print | intros _].
    apply (keeps_next_phase (only (P SQLite)) T2); [apply (Hrun SQLite) | intros _].
    apply (keeps_same_phase (only (P MongoDB)) T3); [apply only_print | intros _].
    apply (keeps_next_phase (only (P MongoDB)) T3); [apply (Hrun MongoDB) | intros _].
    apply (keeps_bind (only (P TinyDB))); [apply only_print | intros _].
    apply (keeps_bind (only (P TinyDB))); [apply (Hrun TinyDB) | intros _].
    apply only_print. }
  destruct (Hmain w) as (w1 & (cs1 & E1 & F1) & w2 & (cs2 & E2 & F2)
                         & w3 & (cs3 & E3 & F3) & cs4 & E4 & F4).
  exists cs1, cs2, cs3, cs4.
  split; [|split; [exact F1 | split; [exact F2 | split; [exact F3 | exact F4]]]].
  rewrite E4, E3, E2, E1. rewrite <- !app_assoc. reflexivity.
Qed.

(** ** The timer and the summary *)

Lemma entry_dict_set_eq {V} (d : list (string * V)) (k : string) (v : V) :
  entry (dict_set d k v) k = Some v.
Proof.
  induction d as [|[k0 v0] d IH]; simpl.
  - by rewrite String.eqb_refl.
  - destruct (String.eqb k0 k) eqn:E; simpl; rewrite E; [done | exact IH].
Qed.

Lemma entry_dict_set_ne {V} (d : list (string * V)) (k k' : string) (v : V) :
  k' <> k -> entry (dict_set d k v) k' = entry d k'.
Proof.
  intros Hne. induction d as [|[k0 v0] d IH]; simpl.
  - destruct (String.eqb_spec k k'); [congruence | done].
  - destruct (String.eqb_spec k0 k) as [->|Hk]; simpl.
    + destruct (String.eqb_spec k k'); [congruence | done].
    + destruct (String.eqb k0 k'); [done | exact IH].
Qed.

Lemma keys_dict_set {V} (d : list (string * V)) (k : string) (v : V) :
  map fst (dict_set d k v)
  = match entry d k with
    | Some _ => map fst d
    | None => map fst d ++ [k]
    end.
Proof.
  induction d as [|[k0 v0] d IH]; simpl; [done|].
  destruct (String.eqb k0 k); simpl; [done|].
  rewrite IH. by destruct (entry d k).
Qed.

Lemma printed_record_print (line : string) (w : world) :
  printed (record (EvPrint line) w) = printed w ++ [line].
Proof. reflexivity. Qed.

(** X4. [measure] has no handler of its own: when the measured function
    raises, [measure] raises the same exception and leaves the state exactly
    as the function left it, so the clock is not read a second time, no line
    is printed and no duration is recorded. *)
Theorem measure_passes_exceptions (self : Benchmark) (name : string)
    (func : M unit) (w w2 : world) (e : exn) :
  func (snd (perf_counter w)) = (Raise e, w2) ->
  measure self name func w = (Raise e, w2).
Proof.
  intros Hf. unfold measure. rewrite bind_unfold.
  unfold perf_counter in *. cbv zeta in *. cbn [snd] in Hf.
  by rewrite bind_unfold, Hf.
Qed.

(** X5. When [measure] returns, the benchmark keeps its name; its mapping
    holds under [operation_name] the duration that the printed line shows;
    every other entry is as before; and the order of the keys is as before,
    with [operation_name] added last only if it was not there: measuring a
    name again replaces its duration in place. *)
Theorem measure_records (self self' : Benchmark) (name : string)
    (func : M unit) (w w' : world) :
  measure self name func w = (Ok self', w') ->
  db_name self' = db_name self
  /\ (exists d rest,
        entry (results self') name = Some d
        /\ printed w'
           = rest ++ [String.append "["
                        (String.append (db_name self)
                           (String.append "] "
                              (String.append name
                                 (String.append ": "
                                    (String.append (format_2f d) " ms")))))])
  /\ (forall k, k <> name -> entry (results self') k = entry (results self) k)
  /\ map fst (results self')
     = match entry (results self) name with
       | Some _ => map fst (results self)
       | None => map fst (results self) ++ [name]
       end.
Proof.
  intros Heq. unfold measure in Heq.
  apply bind_Ok in Heq as (start & w1 & H1 & Heq).
  apply bind_Ok in Heq as ([] & w2 & H2 & Heq).
  apply bind_Ok in Heq as (end_ & w3 & H3 & Heq).
  apply bind_Ok in Heq as ([] & w4 & H4 & Heq).
  injection Heq as <- <-. injection H4 as <-. cbn [db_name results].
  split; [done|]. split; [|split].
  - exists (duration_ms start end_), (printed w3).
    split; [apply entry_dict_set_eq|].
    rewrite printed_record_print. reflexivity.
  - intros k Hk. by apply entry_dict_set_ne.
  - apply keys_dict_set.
Qed.

Lemma summary_lines {B} (f : B -> string) (l : list B) (w : world) :
  exists w',
    for_ l (fun x => print (f x)) w = (Ok tt, w')
    /\ w_trace w' = map EvPrint (rev (map f l)) ++ w_trace w
    /\ w_clock w' = w_clock w /\ w_open w' = w_open w /\ same_data w w'.
Proof.
  revert w; induction l as [|x l IH]; intros w.
  - exists w. by repeat split.
  - destruct (IH (record (EvPrint (f x)) w)) as (w' & Heq & Ht & Hc & Ho & Hd).
    exists w'. split; [|split; [|by repeat split; try apply Hd]].
    + change (for_ (x :: l) (fun x => print (f x)) w)
        with ((print (f x) ≫= fun _ => for_ l (fun x => print (f x))) w).
      by rewrite (bind_Ok_eq (print (f x)) _ w _ _ eq_refl).
    + rewrite Ht. simpl. rewrite map_app. simpl. by rewrite <- app_assoc.
Qed.

Lemma omap_prints (ls : list string) :
  omap (fun ev => match ev with EvPrint line => Some line | _ => None end)
       (map EvPrint ls) = ls.
Proof. induction ls as [|l ls IH]; [done | cbn; f_equal; exact IH]. Qed.

Lemma omap_prints_none {B} (g : event -> option B) (ls : list string) :
  (forall l, g (EvPrint l) = None) -> omap g (map EvPrint ls) = [].
Proof.
  intros Hg. induction ls as [|l ls IH]; [done|]. cbn. by rewrite Hg.
Qed.

Lemma printed_only (ls : list string) (w w' : world) :
  w_trace w' = map EvPrint (rev ls) ++ w_trace w ->
  printed w' = printed w ++ ls /\ calls w' = calls w /\ readings w' = readings w.
Proof.
  intros Ht. unfold printed, lines_of, calls, calls_of, readings, readings_of.
  rewrite Ht, !omap_app, omap_prints, rev_app_distr, rev_involutive.
  split; [done|].
  rewrite (omap_prints_none
             (fun ev => match ev with EvCall c _ => Some c | _ => None end)) by done.
  rewrite (omap_prints_none
             (fun ev => match ev with EvClock ns => Some ns | _ => None end)) by done.
  done.
Qed.

(** X6. [print_summary] never raises and only prints: a header with the
    backend's name, then one line per recorded operation in the order of the
    mapping, each with its duration to two decimals.  It makes no call, reads
    no clock and leaves handles and shared lists alone. *)
Theorem print_summary_lines (self : Benchmark) (w : world) :
  exists w',
    print_summary self w = (Ok tt, w')
    /\ printed w'
       = printed w
         ++ String.append newline
              (String.append "--- " (String.append (db_name self) " Results ---"))
         :: map (fun kv => String.append kv.1
                             (String.append ": " (String.append (format_2f kv.2) " ms")))
                (results self)
    /\ calls w' = calls w
    /\ readings w' = readings w
    /\ w_clock w' = w_clock w
    /\ w_open w' = w_open w
    /\ users_data w' = users_data w /\ orders_data w' = orders_data w.
Proof.
  unfold print_summary.
  rewrite (bind_Ok_eq (print _) _ w _ _ eq_refl).
  set (header := cat [newline; "--- "; db_name self; " Results ---"]).
  set (line := fun kv : string * float => cat [kv.1; ": "; format_2f kv.2; " ms"]).
  destruct (summary_lines line (results self) (record (EvPrint header) w))
    as (w' & Heq & Ht & Hc & Ho & Hd1 & Hd2).
  exists w'. split; [exact Heq|].
  destruct (printed_only (header :: map line (results self)) w w') as (Hp & Hcs & Hr).
  { rewrite Ht. cbn [rev record w_trace]. rewrite map_app, <- app_assoc. reflexivity. }
  split; [|by repeat split].
  rewrite Hp. reflexivity.
Qed.

(** X7. When the clock gives the same finite value at the start and at the
    end of a window, the duration recorded is [+0.0], shown as ["0.00"]. *)
Theorem same_reading_zero (x : float) :
  is_finite x = true ->
  duration_ms x x = S754_zero false
  /\ format_2f (duration_ms x x) = "0.00".
Proof.
  intros Hx.
  assert (Hd : duration_ms x x = S754_zero false); [|by rewrite Hd].
  unfold duration_ms, fsub.
  assert (Hs : SFsub prec emax x x = S754_zero false).
  { destruct x as [[|]|s| |s m e]; try discriminate; try reflexivity.
    unfold SFsub. rewrite Z.sub_diag. reflexivity. }
  rewrite Hs. reflexivity.
Qed.

(** ** The old file and the [Create] step *)

Lemma file_check {A} (f : string) (rest m : M A) (w : world) :
  m = (there ← ext (PathExists f);
       (if (there : bool) then ext (Remove f);; mret tt else mret tt);; rest) ->
  keeps (only (fun c => is_remove c = false)) rest ->
  raised (driver (PathExists f) w) = None ->
  exists cs,
    calls (snd (m w)) = calls w ++ PathExists f :: cs
    /\ (answer (driver (PathExists f) w) = false ->
        Forall (fun c => is_remove c = false) cs)
    /\ (answer (driver (PathExists f) w) = true ->
        exists cs', cs = Remove f :: cs'
          /\ forall e,
               raised (driver (Remove f) (snd (ext (PathExists f) w))) = Some e ->
               cs' = [] /\ fst (m w) = Raise e).
Proof.
  intros -> Hrest Hr.
  set (w1 := snd (ext (PathExists f) w)).
  assert (H1 : ext (PathExists f) w = (Ok (answer (driver (PathExists f) w)), w1)).
  { unfold w1, ext. rewrite Hr. reflexivity. }
  assert (Hc1 : calls w1 = calls w ++ [PathExists f]).
  { unfold w1, ext. rewrite Hr. reflexivity. }
  rewrite (bind_Ok_eq _ _ _ _ _ H1).
  destruct (answer (driver (PathExists f) w)).
  - destruct (raised (driver (Remove f) w1)) as [e|] eqn:Hrm.
    + assert (H2 : exists w2, ext (Remove f) w1 = (Raise e, w2)
                              /\ calls w2 = calls w1 ++ [Remove f]).
      { unfold ext. rewrite Hrm. eexists. split; reflexivity. }
      destruct H2 as (w2 & H2 & Hc2).
      assert (H3 : (ext (Remove f);; mret tt) w1 = (Raise e, w2)).
      { by rewrite bind_unfold, H2. }
      rewrite bind_unfold, H3. cbn [fst snd].
      exists [Remove f]. split; [by rewrite Hc2, Hc1, <- app_assoc|].
      split; [done|]. intros _. exists []. split; [done|].
      intros e' [= ->]. done.
    + assert (H2 : exists a w2, ext (Remove f) w1 = (Ok a, w2)
                                /\ calls w2 = calls w1 ++ [Remove f]).
      { unfold ext. rewrite Hrm. eexists _, _. split; reflexivity. }
      destruct H2 as (a & w2 & H2 & Hc2).
      assert (H3 : (ext (Remove f);; mret tt) w1 = (Ok tt, w2)).
      { by rewrite (bind_Ok_eq _ _ _ _ _ H2). }
      rewrite (bind_Ok_eq _ _ _ _ _ H3).
      destruct (Hrest w2) as (cs & Hcs & _).
      exists (Remove f :: cs).
      split; [by rewrite Hcs, Hc2, Hc1, <- !app_assoc|].
      split; [done|]. intros _. exists cs. split; [done | congruence].
  - rewrite (bind_Ok_eq (mret tt) _ w1 w1 tt eq_refl).
    destruct (Hrest w1) as (cs & Hcs & Hall).
    exists cs. split; [by rewrite Hcs, Hc1, <- app_assoc|].
    split; [done | done].
Qed.

(** X8. The two file-backed backends start from a fresh file.  Provided
    [os.path.exists] itself returns, the first call of the run asks whether the
    backend's file exists.  If it does not, the run never calls [os.remove].
    If it does, the very next call removes that file, and when the removal
    raises the run raises with it, having made no further call: the old file
    is never opened. *)
Theorem stale_file_removed_first (b : backend) (f : string) (w : world) :
  own_file b = Some f ->
  raised (driver (PathExists f) w) = None ->
  exists cs,
    calls (snd (run b w)) = calls w ++ PathExists f :: cs
    /\ (answer (driver (PathExists f) w) = false ->
        Forall (fun c => is_remove c = false) cs)
    /\ (answer (driver (PathExists f) w) = true ->
        exists cs', cs = Remove f :: cs'
          /\ forall e,
               raised (driver (Remove f) (snd (ext (PathExists f) w))) = Some e ->
               cs' = [] /\ fst (run b w) = Raise e).
Proof.
  intros Hf Hr.
  destruct b; try discriminate; injection Hf as <-.
  - eapply file_check; [reflexivity | solve_only | exact Hr].
  - eapply file_check; [reflexivity | solve_only | exact Hr].
Qed.

Lemma items_same_data (l : shared) (w w' : world) :
  same_data w w' -> items l w' = items l w.
Proof. intros [H1 H2]. by destruct l. Qed.

(** A loop over a shared list whose body makes one call per record and
    leaves the lists alone makes these calls in list order. *)
Lemma for_each_calls (l : shared) (body : nat -> dict -> M unit)
    (c : dict -> call) (ok : dict -> Prop) :
  (forall i u w, ok u ->
     exists w', body i u w = (Ok tt, w')
                /\ calls w' = calls w ++ [c u] /\ same_data w w') ->
  forall w, Forall ok (items l w) ->
    exists w', for_each l body w = (Ok tt, w')
               /\ calls w' = calls w ++ map c (items l w) /\ same_data w w'.
Proof.
  intros Hbody w Hok. unfold for_each.
  set (us := items l w) in *.
  set (inner := fun (i : nat) (w' : world) =>
                  match items l w' !! i with
                  | Some u => body i u w'
                  | None => (Ok tt, w')
                  end).
  assert (aux : forall n k w1, same_data w w1 -> (k + n = length us)%nat ->
            exists w', for_ (seq k n) inner w1 = (Ok tt, w')
                       /\ calls w' = calls w1 ++ map c (take n (drop k us))
                       /\ same_data w w').
  { induction n as [|n IH]; intros k w1 Hd Hlen.
    - exists w1. split; [reflexivity|]. split; [by rewrite app_nil_r | done].
    - assert (Hk : exists u, us !! k = Some u).
      { apply lookup_lt_is_Some_2. lia. }
      destruct Hk as (u & Hu).
      assert (Hou : ok u) by (rewrite Forall_lookup in Hok; by apply (Hok k)).
      destruct (Hbody k u w1 Hou) as (w2 & Hb & Hc & Hd2).
      assert (Hd' : same_data w w2) by (by etrans).
      destruct (IH (S k) w2 Hd' ltac:(lia)) as (w' & Hf & Hc' & Hd'').
      exists w'. split; [|split; [|done]].
      + change (for_ (seq k (S n)) inner w1)
          with ((inner k ≫= fun _ => for_ (seq (S k) n) inner) w1).
        assert (Hi : inner k w1 = (Ok tt, w2)).
        { unfold inner. rewrite (items_same_data l w w1 Hd). fold us. by rewrite Hu. }
        by rewrite (bind_Ok_eq _ _ _ _ _ Hi).
      + rewrite Hc', Hc. rewrite (drop_S us u k Hu). cbn [take map].
        by rewrite <- app_assoc. }
  destruct (aux (length us) 0%nat w ltac:(reflexivity) ltac:(lia)) as (w' & Hf & Hc & Hd).
  exists w'. split; [exact Hf|]. split; [|done].
  rewrite Hc. by rewrite drop_0, firstn_all.
Qed.

Lemma method_ok (b : backend) (name : string) (args : list pyval) (w : world) :
  raised (driver (Method b name args) w) = None ->
  exists w', method b name args w = (Ok tt, w')
             /\ calls w' = calls w ++ [Method b name args] /\ same_data w w'.
Proof.
  intros Hr. unfold method. rewrite bind_unfold. unfold ext. rewrite Hr.
  eexists. split; [reflexivity|]. split; [reflexivity | split; reflexivity].
Qed.

Lemma user_params_ok (u : dict) (w : world) :
  map fst u = user_columns -> user_params u w = (Ok (map snd u), w).
Proof.
  destruct u as [|[k1 v1] [|[k2 v2] [|[k3 v3] [|[k4 v4] [|? ?]]]]]; try discriminate.
  intros [= -> -> -> ->]. reflexivity.
Qed.

Lemma order_params_ok (o : dict) (w : world) :
  map fst o = order_columns -> order_params o w = (Ok (map snd o), w).
Proof.
  destruct o as [|[k1 v1] [|[k2 v2] [|[k3 v3] [|[k4 v4] [|[k5 v5] [|? ?]]]]]];
    try discriminate.
  intros [= -> -> -> -> ->]. reflexivity.
Qed.

Lemma sql_insert_calls (b : backend) (sql_users sql_orders : string) (w : world) :
  obliging b ->
  Forall (fun u => map fst u = user_columns) (users_data w) ->
  Forall (fun o => map fst o = order_columns) (orders_data w) ->
  exists w',
    (for_each Users (fun _ u => p ← user_params u; execute b sql_users p);;
     for_each Orders (fun _ o => p ← order_params o; execute b sql_orders p);;
     method b "commit" []) w = (Ok tt, w')
    /\ calls w'
       = calls w
         ++ map (fun u => Method b "execute" (VStr sql_users :: map snd u)) (users_data w)
         ++ map (fun o => Method b "execute" (VStr sql_orders :: map snd o)) (orders_data w)
         ++ [Method b "commit" []]
    /\ same_data w w'.
Proof.
  intros Hb Hu Ho.
  destruct (for_each_calls Users
              (fun _ u => p ← user_params u; execute b sql_users p)
              (fun u => Method b "execute" (VStr sql_users :: map snd u))
              (fun u => map fst u = user_columns)) with (w := w)
    as (w1 & H1 & C1 & D1); [|exact Hu|].
  { intros i u w0 Hok. rewrite bind_unfold, (user_params_ok u w0 Hok).
    apply method_ok, Hb. }
  assert (Ho1 : Forall (fun o => map fst o = order_columns) (items Orders w1)).
  { by rewrite (items_same_data Orders w w1 D1). }
  destruct (for_each_calls Orders
              (fun _ o => p ← order_params o; execute b sql_orders p)
              (fun o => Method b "execute" (VStr sql_orders :: map snd o))
              (fun o => map fst o = order_columns)) with (w := w1)
    as (w2 & H2 & C2 & D2); [|exact Ho1|].
  { intros i o w0 Hok. rewrite bind_unfold, (order_params_ok o w0 Hok).
    apply method_ok, Hb. }
  destruct (method_ok b "commit" [] w2 (Hb _ _ _)) as (w3 & H3 & C3 & D3).
  exists w3. split; [|split].
  - rewrite (bind_Ok_eq _ _ _ _ _ H1), (bind_Ok_eq _ _ _ _ _ H2). exact H3.
  - rewrite C3, C2, C1. rewrite (items_same_data Orders w w1 D1).
    cbn [items]. by rewrite <- !app_assoc.
  - by etrans; [|etrans].
Qed.

(** X11. On records that have the columns of their table, and with a client
    library whose methods do not raise, the "Create" step of SQLite and of
    MySQL executes one [INSERT] per user in list order, then one per order in
    list order, each with the values of the record as parameters, then commits
    once; it makes no other call and leaves the shared lists as they are. *)
Theorem sql_create_calls (b : backend) (w : world) :
  b = SQLite \/ b = MySQL ->
  obliging b ->
  Forall (fun u => map fst u = ["user_id"; "name"; "email"; "created_at"])
         (users_data w) ->
  Forall (fun o => map fst o = ["order_id"; "user_id"; "amount"; "status"; "created_at"])
         (orders_data w) ->
  exists w',
    insert_data b w = (Ok tt, w')
    /\ calls w'
       = calls w
         ++ map (fun u => Method b "execute" (VStr (insert_users b) :: map snd u))
                (users_data w)
         ++ map (fun o => Method b "execute" (VStr (insert_orders b) :: map snd o))
                (orders_data w)
         ++ [Method b "commit" []]
    /\ users_data w' = users_data w
    /\ orders_data w' = orders_data w.
Proof.
  intros Hb Hobl Hu Ho.
  destruct Hb as [-> | ->].
  - destruct (sql_insert_calls SQLite (insert_users SQLite) (insert_orders SQLite)
                w Hobl Hu Ho) as (w' & Heq & Hc & Hd1 & Hd2).
    exists w'. split; [exact Heq | split; [exact Hc | split; [exact Hd1 | exact Hd2]]].
  - destruct (sql_insert_calls MySQL (insert_users MySQL) (insert_orders MySQL)
                w Hobl Hu Ho) as (w' & Heq & Hc & Hd1 & Hd2).
    exists w'. split; [exact Heq | split; [exact Hc | split; [exact Hd1 | exact Hd2]]].
Qed.

(** X12. With a client library whose methods do not raise, the "Create"
    step of MongoDB inserts one document per user in list order, then one per
    order in list order, each a copy with the items of the record; whatever the
    driver writes into the documents it is handed, the shared lists are left
    as they are. *)
Theorem mongodb_create_copies (w : world) :
  obliging MongoDB ->
  exists w',
    insert_data MongoDB w = (Ok tt, w')
    /\ calls w'
       = calls w
         ++ map (fun u => Method MongoDB "users.insert_one" [VDict u]) (users_data w)
         ++ map (fun o => Method MongoDB "orders.insert_one" [VDict o]) (orders_data w)
    /\ users_data w' = users_data w
    /\ orders_data w' = orders_data w.
Proof.
  intros Hobl. unfold insert_data, mongodb_insert_data.
  destruct (for_each_calls Users
              (fun _ u => method MongoDB "users.insert_one" [VDict (dict_copy u)])
              (fun u => Method MongoDB "users.insert_one" [VDict u])
              (fun _ => True)) with (w := w)
    as (w1 & H1 & C1 & D1); [|by apply Forall_true|].
  { intros i u w0 _. apply method_ok, Hobl. }
  destruct (for_each_calls Orders
              (fun _ o => method MongoDB "orders.insert_one" [VDict (dict_copy o)])
              (fun o => Method MongoDB "orders.insert_one" [VDict o])
              (fun _ => True)) with (w := w1)
    as (w2 & H2 & C2 & D2); [|by apply Forall_true|].
  { intros i o w0 _. apply method_ok, Hobl. }
  exists w2. split; [|split].
  - rewrite (bind_Ok_eq _ _ _ _ _ H1). exact H2.
  - rewrite C2, C1, (items_same_data Orders w w1 D1). cbn [items].
    by rewrite <- !app_assoc.
  - destruct D1 as [? ?], D2 as [? ?]. split; congruence.
Qed.

Lemma ext_ref_ok (l : shared) (c : dict -> call) (k : nat) (u : dict) (w : world) :
  items l w !! k = Some u ->
  raised (driver (c u) w) = None ->
  exists w',
    (ext_ref c l k;; mret tt) w = (Ok tt, w')
    /\ items l w' = <[k := mutate (c u) u]> (items l w)
    /\ (forall l', l' <> l -> items l' w' = items l' w)
    /\ calls w' = calls w ++ [c u].
Proof.
  intros Hl Hr. rewrite bind_unfold. unfold ext_ref. rewrite Hl. cbv zeta.
  rewrite Hr. eexists. split; [reflexivity|].
  split; [by destruct l|]. split; [|by destruct l].
  intros l' Hne. by destruct l, l'.
Qed.

(** A loop that hands each object of a shared list itself to the driver
    leaves in the list what the driver made of each object. *)
Lemma for_each_ref (l : shared) (c : dict -> call) (w : world) :
  (forall u w', raised (driver (c u) w') = None) ->
  exists w',
    for_each l (fun i _ => ext_ref c l i;; mret tt) w = (Ok tt, w')
    /\ items l w' = map (fun u => mutate (c u) u) (items l w)
    /\ (forall l', l' <> l -> items l' w' = items l' w)
    /\ calls w' = calls w ++ map c (items l w).
Proof.
  intros Hr. unfold for_each.
  set (us := items l w).
  set (f := fun u => mutate (c u) u).
  set (inner := fun (i : nat) (w' : world) =>
                  match items l w' !! i with
                  | Some u => (ext_ref c l i;; mret tt) w'
                  | None => (Ok tt, w')
                  end).
  assert (aux : forall n k w1, (k + n = length us)%nat ->
            items l w1 = map f (take k us) ++ drop k us ->
            (forall l', l' <> l -> items l' w1 = items l' w) ->
            exists w', for_ (seq k n) inner w1 = (Ok tt, w')
                       /\ items l w' = map f us
                       /\ (forall l', l' <> l -> items l' w' = items l' w)
                       /\ calls w' = calls w1 ++ map c (take n (drop k us))).
  { induction n as [|n IH]; intros k w1 Hlen Hinv Hoth.
    - exists w1. split; [reflexivity|]. split; [|split; [exact Hoth|]].
      + rewrite Hinv, take_ge, drop_ge by lia. by rewrite app_nil_r.
      + by rewrite app_nil_r.
    - assert (Hk : exists u, us !! k = Some u).
      { apply lookup_lt_is_Some_2. lia. }
      destruct Hk as (u & Hu).
      assert (Hlk : length (map f (take k us)) = k).
      { rewrite length_map, length_take. lia. }
      assert (Hl1 : items l w1 !! k = Some u).
      { rewrite Hinv, lookup_app_r by lia. rewrite Hlk, Nat.sub_diag, lookup_drop.
        by rewrite Nat.add_0_r. }
      destruct (ext_ref_ok l c k u w1 Hl1 (Hr _ _)) as (w2 & Hb & Hi2 & Ho2 & Hc2).
      assert (Hinv2 : items l w2 = map f (take (S k) us) ++ drop (S k) us).
      { rewrite Hi2, Hinv, insert_app_r_alt by lia.
        rewrite Hlk, Nat.sub_diag, (drop_S us u k Hu), (take_S_r us k u Hu).
        rewrite map_app, <- app_assoc. reflexivity. }
      assert (Hoth2 : forall l', l' <> l -> items l' w2 = items l' w).
      { intros l' Hne. rewrite (Ho2 l' Hne). by apply Hoth. }
      destruct (IH (S k) w2 ltac:(lia) Hinv2 Hoth2) as (w' & Hf & Hi' & Ho' & Hc').
      exists w'. split; [|split; [exact Hi'|split; [exact Ho'|]]].
      + change (for_ (seq k (S n)) inner w1)
          with ((inner k ≫= fun _ => for_ (seq (S k) n) inner) w1).
        assert (Hi : inner k w1 = (Ok tt, w2)).
        { unfold inner. rewrite Hl1. exact Hb. }
        by rewrite (bind_Ok_eq _ _ _ _ _ Hi).
      + rewrite Hc', Hc2, (drop_S us u k Hu). cbn [take map].
        by rewrite <- app_assoc. }
  destruct (aux (length us) 0%nat w ltac:(reflexivity) ltac:(reflexivity)
              ltac:(reflexivity)) as (w' & Hf & Hi & Ho & Hc).
  exists w'. split; [exact Hf|]. split; [exact Hi|]. split; [exact Ho|].
  rewrite Hc. by rewrite drop_0, firstn_all.
Qed.

(** X13. TinyDB is handed the shared records themselves, not copies.  With
    a client library whose methods do not raise, after the "Create" step of
    TinyDB every record of the two shared lists is what the driver made of it
    when it was inserted, in the same order, and the step has made exactly one
    [insert] call per record, users first. *)
Theorem tinydb_create_writes_back (w : world) :
  obliging TinyDB ->
  exists w',
    insert_data TinyDB w = (Ok tt, w')
    /\ users_data w'
       = map (fun u => mutate (Method TinyDB "users.insert" [VDict u]) u) (users_data w)
    /\ orders_data w'
       = map (fun o => mutate (Method TinyDB "orders.insert" [VDict o]) o) (orders_data w)
    /\ calls w'
       = calls w
         ++ map (fun u => Method TinyDB "users.insert" [VDict u]) (users_data w)
         ++ map (fun o => Method TinyDB "orders.insert" [VDict o]) (orders_data w).
Proof.
  intros Hobl. unfold insert_data, tinydb_insert_data.
  destruct (for_each_ref Users (fun u => Method TinyDB "users.insert" [VDict u]) w)
    as (w1 & H1 & I1 & O1 & C1); [intros; apply Hobl|].
  destruct (for_each_ref Orders (fun o => Method TinyDB "orders.insert" [VDict o]) w1)
    as (w2 & H2 & I2 & O2 & C2); [intros; apply Hobl|].
  exists w2. split; [|split; [|split]].
  - rewrite (bind_Ok_eq _ _ _ _ _ H1). exact H2.
  - change (users_data w2) with (items Users w2).
    rewrite (O2 Users) by discriminate. exact I1.
  - change (orders_data w2) with (items Orders w2).
    rewrite I2, (O1 Orders) by discriminate. reflexivity.
  - rewrite C2, C1, (O1 Orders) by discriminate. cbn [items].
    by rewrite <- app_assoc.
Qed.

(** ** What a run prints *)

Global Instance silent_preorder : PreOrder silent.
Proof.
  split; [done|]. intros w1 w2 w3 H1 H2. unfold silent in *. congruence.
Qed.

Lemma silent_perf_counter : keeps silent perf_counter.
Proof. intros w. reflexivity. Qed.

Lemma silent_ext (c : call) : keeps silent (ext c).
Proof. intros w. unfold ext. destruct (raised (driver c w)); reflexivity. Qed.

Lemma silent_ext_ref (c : dict -> call) (l : shared) (i : nat) :
  keeps silent (ext_ref c l i).
Proof.
  intros w. unfold ext_ref. destruct (items l w !! i) as [u|]; [|reflexivity].
  destruct (raised (driver (c u) w)), l; reflexivity.
Qed.

Ltac silent_step :=
  first
    [ keeps_step
    | lazymatch goal with
      | |- keeps silent perf_counter => apply silent_perf_counter
      | |- keeps silent (ext ?c) => apply (silent_ext c)
      | |- keeps silent (ext_ref ?c ?l ?i) => apply (silent_ext_ref c l i)
      end ].

Ltac solve_silent := unfold_harness; repeat silent_step.

Lemma measure_Ok_print (self self' : Benchmark) (name : string) (func : M unit)
    (w w' : world) :
  keeps silent func ->
  measure self name func w = (Ok self', w') ->
  exists d,
    self' = mkBenchmark (db_name self) (dict_set (results self) name d)
    /\ printed w' = printed w ++ [measure_line (db_name self) (name, d)].
Proof.
  intros Hq Heq. unfold measure in Heq.
  apply bind_Ok in Heq as (start & w1 & H1 & Heq).
  apply bind_Ok in Heq as ([] & w2 & H2 & Heq).
  apply bind_Ok in Heq as (end_ & w3 & H3 & Heq).
  cbv zeta in Heq.
  apply bind_Ok in Heq as ([] & w4 & H4 & Heq).
  injection Heq as <- <-. injection H4 as <-.
  exists (duration_ms start end_). split; [reflexivity|].
  rewrite printed_record_print.
  pose proof (keeps_at _ _ _ _ _ silent_perf_counter H1) as P1.
  pose proof (keeps_at _ _ _ _ _ Hq H2) as P2.
  pose proof (keeps_at _ _ _ _ _ silent_perf_counter H3) as P3.
  unfold silent in *. rewrite P3, P2, P1. reflexivity.
Qed.

Ltac report_of Hm :=
  lazymatch type of Hm with
  | measure _ _ _ _ = _ =>
      let d := fresh "d" in
      apply measure_Ok_print in Hm as (d & -> & Hm); [| solve_silent]
  | _ => eapply (keeps_at silent) in Hm; [| solve_silent]; unfold silent in Hm
  end.

(** Walks down [H : (m1;; m2;; ...) wi = (Ok res, w')], keeping in [Hacc] the
    lines printed from the first state to the current one. *)
Ltac report_chain Hacc H :=
  repeat (let a := fresh "a" in
          let wj := fresh "w" in
          let Hm := fresh "Hm" in
          apply bind_Ok in H as (a & wj & Hm & H);
          report_of Hm;
          cbn [db_name results] in H;
          rewrite Hacc in Hm; clear Hacc; rename Hm into Hacc).

Ltac finish_report Hacc H :=
  injection H as <- <-; rewrite Hacc, <- !app_assoc; reflexivity.

(** X14. What a run that returns has printed.  Either it skipped: the
    mapping is empty, the connection step raised some instance [e] of
    [Exception], and the one line added is ["Skipping <name>: e"].  Or it printed exactly one line per entry
    of the mapping it returns, in the order of the mapping, each showing the
    backend's name, the operation and the duration to two decimals; the
    summary of [print_summary] is never among them. *)
Theorem run_report (b : backend) (w w' : world) (res : list (string * float)) :
  run b w = (Ok res, w') ->
  (res = []
   /\ exists e, fst (connect_step b w) = Raise e
                /\ is_exception e = true
                /\ printed w' = printed w ++ [cat ["Skipping "; label b; ": "; exn_str e]])
  \/ (map fst res = operations
      /\ printed w' = printed w ++ map (measure_line (label b)) res).
Proof.
  intros Hrun.
  assert (Hacc : printed w = printed w ++ []) by (by rewrite app_nil_r).
  destruct b.
  - right. unfold run, run_sqlite in Hrun; cbv zeta in Hrun.
    report_chain Hacc Hrun. split; [by injection Hrun as <- <- |].
    finish_report Hacc Hrun.
  - unfold run, run_mysql in Hrun; cbv zeta in Hrun.
    apply bind_Ok in Hrun as (connected & w0 & Htry & Hrun).
    apply try_Ok in Htry as [Hbody | (e & w1 & Hbody & Hexc & Hh)].
    + right.
      apply bind_Ok in Hbody as ([] & w1 & Hc & Hret). injection Hret as <- <-.
      report_of Hc. rewrite Hacc in Hc. clear Hacc.
      cbn [negb] in Hrun.
      report_chain Hc Hrun. split; [by injection Hrun as <- <- |].
      finish_report Hc Hrun.
    + left.
      apply bind_Ok in Hh as ([] & w2 & Hp & Hret). injection Hret as <- <-.
      cbn [negb] in Hrun. injection Hrun as <- <-. injection Hp as <-.
      split; [done|]. exists e. split.
      * unfold connect_step. rewrite bind_unfold in Hbody.
        destruct (mysql_connect w) as [[[]|e'] w3]; [discriminate|].
        by injection Hbody as -> _.
      * split; [exact Hexc|]. rewrite printed_record_print. f_equal.
        assert (Hs : keeps silent (mysql_connect ≫= fun _ => mret true))
          by solve_silent.
        exact (keeps_at _ _ _ _ _ Hs Hbody).
  - unfold run, run_mongodb in Hrun; cbv zeta in Hrun.
    apply bind_Ok in Hrun as (connected & w0 & Htry & Hrun).
    apply try_Ok in Htry as [Hbody | (e & w1 & Hbody & Hexc & Hh)].
    + right.
      apply bind_Ok in Hbody as ([] & w1 & Hc & Hret). injection Hret as <- <-.
      report_of Hc. rewrite Hacc in Hc. clear Hacc.
      cbn [negb] in Hrun.
      report_chain Hc Hrun. split; [by injection Hrun as <- <- |].
      finish_report Hc Hrun.
    + left.
      apply bind_Ok in Hh as ([] & w2 & Hp & Hret). injection Hret as <- <-.
      cbn [negb] in Hrun. injection Hrun as <- <-. injection Hp as <-.
      split; [done|]. exists e. split.
      * unfold connect_step. rewrite bind_unfold in Hbody.
        destruct (mongodb_connect w) as [[[]|e'] w3]; [discriminate|].
        by injection Hbody as -> _.
      * split; [exact Hexc|]. rewrite printed_record_print. f_equal.
        assert (Hs : keeps silent (mongodb_connect ≫= fun _ => mret true))
          by solve_silent.
        exact (keeps_at _ _ _ _ _ Hs Hbody).
  - right. unfold run, run_tinydb in Hrun; cbv zeta in Hrun.
    report_chain Hacc Hrun. split; [by injection Hrun as <- <- |].
    finish_report Hacc Hrun.
Qed.

(** ** What the entry point prints *)

Global Instance grows_preorder : PreOrder grows.
Proof.
  split.
  - intros w. exists []. by rewrite app_nil_r.
  - intros w1 w2 w3 (l1 & H1) (l2 & H2). exists (l1 ++ l2).
    by rewrite H2, H1, app_assoc.
Qed.

Lemma grows_silent {A} (m : M A) : keeps silent m -> keeps grows m.
Proof. intros Hm w. exists []. rewrite app_nil_r. apply Hm. Qed.

Lemma grows_print (line : string) : keeps grows (print line).
Proof. intros w. exists [line]. reflexivity. Qed.

Ltac grows_step :=
  first
    [ keeps_step
    | lazymatch goal with
      | |- keeps grows (print ?l) => apply (grows_print l)
      | |- keeps grows perf_counter => apply (grows_silent _ silent_perf_counter)
      | |- keeps grows (ext ?c) => apply (grows_silent _ (silent_ext c))
      | |- keeps grows (ext_ref ?c ?l ?i) =>
          apply (grows_silent _ (silent_ext_ref c l i))
      end ].

Ltac solve_grows := unfold_harness; repeat grows_step.

Lemma grows_run (b : backend) : keeps grows (run b).
Proof. destruct b; solve_grows. Qed.

Lemma printed_logged ds s (w : world) : printed (logged ds s w) = printed w.
Proof.
  unfold printed, lines_of, logged; cbn [w_trace].
  rewrite omap_app.
  assert (Hnone : forall l, omap (fun ev => match ev with EvPrint p => Some p | _ => None end)
                    (map EvDraw l) = []).
  { induction l as [|d l IH]; [done | exact IH]. }
  by rewrite Hnone.
Qed.

Lemma printed_set_data (users orders : list dict) (w : world) :
  printed (set_data users orders w) = printed w.
Proof. reflexivity. Qed.

Lemma users_set_data (users orders : list dict) (w : world) :
  users_data (set_data users orders w) = users.
Proof. reflexivity. Qed.

Lemma orders_set_data (users orders : list dict) (w : world) :
  orders_data (set_data users orders w) = orders.
Proof. reflexivity. Qed.

Lemma generate_lengths (w : world) :
  exists w',
    generate w = (Ok tt, w')
    /\ length (users_data w') = Z.to_nat 5000
    /\ length (orders_data w') = Z.to_nat 20000
    /\ printed w' = printed w.
Proof.
  eexists. split; [apply generate_eq|]. split; [|split].
  - rewrite users_set_data, length_map, length_range. reflexivity.
  - rewrite orders_set_data.
    rewrite <- (length_map (fun o => dict_get o "order_id")).
    unfold generated_orders. rewrite draw_orders_ids, length_map, length_range.
    reflexivity.
  - rewrite printed_set_data. apply printed_logged.
Qed.

Lemma closes_print (line : string) : closes line (print line).
Proof. intros w. exists [line]. split; [reflexivity|]. intros _. by exists []. Qed.

Lemma closes_bind (line : string) {A} (m : M A) (k : A -> M unit) :
  keeps grows m -> (forall a, closes line (k a)) -> closes line (m ≫= k).
Proof.
  intros Hm Hk w. rewrite bind_unfold. destruct (Hm w) as (l1 & H1).
  destruct (m w) as [[a|e] w1]; cbn [fst snd] in *.
  - destruct (Hk a w1) as (l2 & H2 & Hlast). exists (l1 ++ l2).
    split; [by rewrite H2, H1, app_assoc|].
    intros Hok. destruct (Hlast Hok) as (l' & ->). exists (l1 ++ l').
    by rewrite app_assoc.
  - exists l1. split; [exact H1 | discriminate].
Qed.

(** X15. Whatever the databases do, the entry point first prints the
    announcement, the sizes of the two lists as 5000 and 20000, a rule of
    thirty dashes and the MySQL heading, in this order, and it only adds
    lines after them; when it returns, the last line printed is "Done.". *)
Theorem main_announces (w : world) :
  exists ls,
    printed (snd (main w))
    = printed w
      ++ "Generating Dataset..."
      :: "Generated 5000 users and 20000 orders."
      :: "------------------------------"
      :: cat [newline; "Starting MySQL Benchmark..."]
      :: ls
    /\ (fst (main w) = Ok tt -> exists ls', ls = ls' ++ [cat [newline; "Done."]]).
Proof.
  set (rest := (run_mysql Users Orders;;
                print (cat [newline; "Starting SQLite Benchmark..."]);;
                run_sqlite Users Orders;;
                print (cat [newline; "Starting MongoDB Benchmark..."]);;
                run_mongodb Users Orders;;
                print (cat [newline; "Starting TinyDB Benchmark (This may take a while)..."]);;
                run_tinydb Users Orders;;
                print (cat [newline; "Done."])) : M unit).
  assert (Hrest : closes (cat [newline; "Done."]) rest).
  { unfold rest.
    apply closes_bind; [apply (grows_run MySQL) | intros _].
    apply closes_bind; [apply grows_print | intros _].
    apply closes_bind; [apply (grows_run SQLite) | intros _].
    apply closes_bind; [apply grows_print | intros _].
    apply closes_bind; [apply (grows_run MongoDB) | intros _].
    apply closes_bind; [apply grows_print | intros _].
    apply closes_bind; [apply (grows_run TinyDB) | intros _].
    apply closes_print. }
  destruct (generate_lengths (record (EvPrint "Generating Dataset...") w))
    as (w2 & Hg & Hu & Ho & Hp).
  set (l2 := "Generated 5000 users and 20000 orders.").
  set (l3 := "------------------------------").
  set (l4 := cat [newline; "Starting MySQL Benchmark..."]).
  assert (Hmain : main w
                  = rest (record (EvPrint l4) (record (EvPrint l3) (record (EvPrint l2) w2)))).
  { unfold main.
    rewrite (bind_Ok_eq (print _) _ w _ tt eq_refl).
    rewrite (bind_Ok_eq generate _ _ _ tt Hg).
    rewrite (bind_Ok_eq (read _) _ w2 w2 _ eq_refl).
    rewrite (bind_Ok_eq (read _) _ w2 w2 _ eq_refl).
    rewrite Hu, Ho.
    rewrite (bind_Ok_eq (print _) _ w2 _ tt eq_refl).
    rewrite (bind_Ok_eq (print _) _ _ _ tt eq_refl).
    rewrite (bind_Ok_eq (print _) _ _ _ tt eq_refl).
    reflexivity. }
  rewrite Hmain.
  destruct (Hrest (record (EvPrint l4) (record (EvPrint l3) (record (EvPrint l2) w2))))
    as (ls & Hls & Hlast).
  exists ls. split; [|exact Hlast].
  rewrite Hls, !printed_record_print, Hp, printed_record_print.
  rewrite <- !app_assoc. reflexivity.
Qed.
End HarnessFacts.

(** ** The properties on concrete runs *)

Section Instances.
Local Existing Instance lcg.

Lemma identifiers_dense_witness :
  exists users orders,
    fst (@get_dataset lcg boot) = Ok (users, orders)
    /\ Forall (fun o => exists uid,
                 dict_get o "user_id" = Some (VInt uid) /\ 1 <= uid <= 5000) orders
    /\ map (fun u => dict_get u "user_id") users
       = map (fun i => Some (VInt i)) (seqZ 1 5000)
    /\ map (fun o => dict_get o "order_id") orders
       = map (fun i => Some (VInt i)) (seqZ 1 20000)
    /\ (forall i, 1 <= i <= 5000 -> exists u,
          users !! Z.to_nat (i - 1) = Some u /\ dict_get u "user_id" = Some (VInt i))
    /\ (forall i, 1 <= i <= 20000 -> exists o,
          orders !! Z.to_nat (i - 1) = Some o /\ dict_get o "order_id" = Some (VInt i)).
Proof.
  apply (@identifiers_dense lcg).
  intros a b s Hab. simpl.
  pose proof (Z.mod_pos_bound s (b - a + 1)). lia.
Defined.

Lemma amounts_in_range_witness :
  exists users orders,
    fst (@get_dataset lcg boot) = Ok (users, orders)
    /\ Forall (fun o => exists amount k,
                 dict_get o "amount" = Some (VFloat amount)
                 /\ fleb (float_of_Z 1) amount = true
                 /\ fleb amount (float_of_Z 500) = true
                 /\ 100 <= k <= 50000
                 /\ amount = nearest k 100
                 /\ round amount 2 = amount) orders.
Proof.
  apply (@amounts_in_range lcg).
  intros s.
  change (fst (@next_uniform lcg 1 500 s))
    with (nearest (100 * 1 + s mod (100 * (500 - 1) + 1)) 100).
  pose proof (Z.mod_pos_bound s (100 * (500 - 1) + 1)).
  destruct (cents_ok_spec (100 * 1 + s mod (100 * (500 - 1) + 1))) as (H1 & H2 & H3 & _);
    [lia | auto].
Defined.


(** The state of the entry point once the dataset is generated. *)
Definition loaded : world := snd (@generate lcg boot).

(** The mapping that [run_sqlite] returns from there when every call takes one
    nanosecond. *)
Definition steady_result : list (string * float) :=
  returned [] (fst (@run lcg steady SQLite loaded)).

Lemma steady_only_guarded : @only_guarded lcg steady.
Proof. intros c w e Hr. discriminate. Qed.

Lemma loaded_generated : @generated_data lcg loaded.
Proof.
  destruct (@returns_generate lcg boot I) as ([] & w' & Heq & Hg).
  unfold loaded. by rewrite Heq.
Qed.

Lemma steady_run :
  @run lcg steady SQLite loaded
  = (Ok steady_result, snd (@run lcg steady SQLite loaded)).
Proof.
  destruct (@run_progress lcg steady SQLite loaded steady_only_guarded loaded_generated)
    as (res & w' & Heq & _).
  unfold steady_result. rewrite Heq. reflexivity.
Qed.

Lemma windows_disjoint_witness :
  (steady_result = []
   /\ (SQLite = MySQL \/ SQLite = MongoDB)
   /\ (exists e, fst (@connect_step lcg steady SQLite loaded) = Raise e
                 /\ is_exception e = true)
   /\ readings (snd (@run lcg steady SQLite loaded)) = readings loaded)
  \/ exists ws,
       length ws = 6%nat
       /\ readings (snd (@run lcg steady SQLite loaded)) = readings loaded ++ flat ws
       /\ (forall i j s e s' e', (i < j)%nat ->
             ws !! i = Some (s, e) -> ws !! j = Some (s', e') ->
             s <= e /\ e <= s' /\ s' <= e')
       /\ (forall i s e, ws !! i = Some (s, e) ->
             w_clock loaded <= s /\ s <= e
             /\ e <= w_clock (snd (@run lcg steady SQLite loaded)))
       /\ steady_result
          = zip_with
              (fun name se => (name, duration_ms (seconds se.1) (seconds se.2)))
              ["Create"; "Read-1 Point"; "Read-2 Range";
               "Read-3 UserOrders"; "Update"; "Delete"] ws
       /\ (forall i name func s e,
             @ops lcg steady SQLite !! i = Some (name, func) -> ws !! i = Some (s, e) ->
             steady_result !! i = Some (name, duration_ms (seconds s) (seconds e))
             /\ exists wa, extends loaded wa
                           /\ @window lcg steady func s e wa
                                (snd (@run lcg steady SQLite loaded))).
Proof.
  exact (proj2 (@windows_disjoint lcg steady SQLite loaded) _ _ steady_run).
Defined.




Lemma handles_released_witness :
  w_open (snd (@run lcg steady SQLite loaded)) = w_open loaded
  /\ exists t,
       w_trace (snd (@run lcg sqlite_readonly SQLite boot)) = t ++ w_trace boot
       /\ w_open (snd (@run lcg sqlite_readonly SQLite boot)) = opened t ++ w_open boot.
Proof.
  split.
  - apply (proj1 (@handles_released lcg steady SQLite loaded) steady_result);
      [left; reflexivity | exact (f_equal fst steady_run)].
  - apply (proj2 (@handles_released lcg sqlite_readonly SQLite boot)
             (Exception "attempt to write a readonly database")).
    reflexivity.
Defined.

Lemma shared_data_unchanged_witness :
  fst (@get_dataset lcg boot)
  = Ok (users_data (snd (@runs lcg steady (take 4 sequence) (snd (@generate lcg boot)))),
        orders_data (snd (@runs lcg steady (take 4 sequence) (snd (@generate lcg boot)))))
  /\ fst (@get_dataset lcg boot)
     = Ok (users_data (snd (@main lcg steady boot)),
           orders_data (snd (@main lcg steady boot))).
Proof.
  apply (@shared_data_unchanged lcg steady boot 4).
  intros name u. reflexivity.
Defined.



(** C8 as stated fails on a failing path: when a statement raises after
    [sqlite3.connect], [run_sqlite] is left with the connection open. *)
Lemma connection_left_open :
  w_open boot = []
  /\ fst (@run lcg sqlite_readonly SQLite boot)
     = Raise (Exception "attempt to write a readonly database")
  /\ w_open (snd (@run lcg sqlite_readonly SQLite boot)) = [SQLite].
Proof. split; [reflexivity|]. split; reflexivity. Qed.

Lemma measure_passes_exceptions_witness :
  @measure lcg sqlite_readonly (mkBenchmark "SQLite" []) "Update"
     (@sqlite_update_op lcg sqlite_readonly) boot
  = (Raise (Exception "attempt to write a readonly database"),
     snd (@sqlite_update_op lcg sqlite_readonly (snd (@perf_counter lcg sqlite_readonly boot)))).
Proof.
  apply (@measure_passes_exceptions lcg sqlite_readonly). reflexivity.
Defined.

(** The benchmark after a first window on the clock of [steady]. *)
Definition first_window : Benchmark :=
  returned (mkBenchmark "SQLite" [])
    (fst (@measure lcg steady (mkBenchmark "SQLite" []) "Delete"
            (@sqlite_delete_op lcg steady) boot)).

Lemma measure_records_witness :
  db_name first_window = "SQLite"
  /\ (exists d rest,
        entry (results first_window) "Delete" = Some d
        /\ printed (snd (@measure lcg steady (mkBenchmark "SQLite" []) "Delete"
                           (@sqlite_delete_op lcg steady) boot))
           = rest ++ [String.append "["
                        (String.append "SQLite"
                           (String.append "] "
                              (String.append "Delete"
                                 (String.append ": "
                                    (String.append (format_2f d) " ms")))))])
  /\ (forall k, k <> "Delete" -> entry (results first_window) k = entry [] k)
  /\ map fst (results first_window) = [] ++ ["Delete"].
Proof.
  apply (@measure_records lcg steady (mkBenchmark "SQLite" []) first_window "Delete"
           (@sqlite_delete_op lcg steady) boot). reflexivity.
Defined.

Lemma same_reading_zero_witness :
  duration_ms (seconds 5000000000) (seconds 5000000000) = S754_zero false
  /\ format_2f (duration_ms (seconds 5000000000) (seconds 5000000000)) = "0.00".
Proof. apply same_reading_zero. reflexivity. Defined.

Lemma stale_file_removed_first_witness :
  exists cs,
    calls (snd (@run lcg stale SQLite boot))
    = calls boot ++ PathExists "benchmark.db" :: cs
    /\ (answer (@driver lcg stale (PathExists "benchmark.db") boot) = false ->
        Forall (fun c => is_remove c = false) cs)
    /\ (answer (@driver lcg stale (PathExists "benchmark.db") boot) = true ->
        exists cs', cs = Remove "benchmark.db" :: cs'
          /\ forall e,
               raised (@driver lcg stale (Remove "benchmark.db")
                         (snd (@ext lcg stale (PathExists "benchmark.db") boot))) = Some e ->
               cs' = [] /\ fst (@run lcg stale SQLite boot) = Raise e).
Proof.
  apply (@stale_file_removed_first lcg stale SQLite "benchmark.db" boot); reflexivity.
Defined.

Lemma sql_create_calls_witness :
  exists w',
    @insert_data lcg steady SQLite small = (Ok tt, w')
    /\ calls w'
       = calls small
         ++ map (fun u => Method SQLite "execute" (VStr (insert_users SQLite) :: map snd u))
                (users_data small)
         ++ map (fun o => Method SQLite "execute" (VStr (insert_orders SQLite) :: map snd o))
                (orders_data small)
         ++ [Method SQLite "commit" []]
    /\ users_data w' = users_data small
    /\ orders_data w' = orders_data small.
Proof.
  apply (@sql_create_calls lcg steady SQLite small).
  - left. reflexivity.
  - intros name args w. reflexivity.
  - repeat constructor.
  - repeat constructor.
Defined.

Lemma mongodb_create_copies_witness :
  exists w',
    @insert_data lcg marking MongoDB small = (Ok tt, w')
    /\ calls w'
       = calls small
         ++ map (fun u => Method MongoDB "users.insert_one" [VDict u]) (users_data small)
         ++ map (fun o => Method MongoDB "orders.insert_one" [VDict o]) (orders_data small)
    /\ users_data w' = users_data small
    /\ orders_data w' = orders_data small.
Proof.
  apply (@mongodb_create_copies lcg marking small).
  intros name args w. reflexivity.
Defined.

Lemma tinydb_create_writes_back_witness :
  exists w',
    @insert_data lcg marking TinyDB small = (Ok tt, w')
    /\ users_data w'
       = map (fun u => @mutate lcg marking (Method TinyDB "users.insert" [VDict u]) u)
             (users_data small)
    /\ orders_data w'
       = map (fun o => @mutate lcg marking (Method TinyDB "orders.insert" [VDict o]) o)
             (orders_data small)
    /\ calls w'
       = calls small
         ++ map (fun u => Method TinyDB "users.insert" [VDict u]) (users_data small)
         ++ map (fun o => Method TinyDB "orders.insert" [VDict o]) (orders_data small).
Proof.
  apply (@tinydb_create_writes_back lcg marking small).
  intros name args w. reflexivity.
Defined.

Lemma run_report_witness :
  (steady_result = []
   /\ exists e, fst (@connect_step lcg steady SQLite loaded) = Raise e
                /\ is_exception e = true
                /\ printed (snd (@run lcg steady SQLite loaded))
                   = printed loaded ++ [cat ["Skipping "; label SQLite; ": "; exn_str e]])
  \/ (map fst steady_result = operations
      /\ printed (snd (@run lcg steady SQLite loaded))
         = printed loaded ++ map (measure_line (label SQLite)) steady_result).
Proof.
  apply (@run_report lcg steady SQLite loaded _ steady_result). exact steady_run.
Defined.
End Instances.
